(** * looksy-backend: the try-on relay, embedded and verified

    A shallow embedding of the request validation, the data-URI parser, the
    overlay resolution of the two Express servers and the retry loop of
    [services/gemini.js].

    Conventions of the embedding.
    - A JavaScript string is a sequence of code units; the development uses
      [string], that is code units in the range U+0000..U+00FF.  [length] is
      a JavaScript number, so it is measured in [Z].
    - Values coming from a JSON request body are untyped ([value]); the
      response of the generative API follows its documented schema, with
      every field optional (records of [option]s).
    - Effects (sleeping, outbound calls, file reads) are made explicit: the
      outside world is a record of oracles, and every effectful function
      returns the list of events it performed next to its result.
    - [throw] is a sum type; a [try]/[catch] is a [match] on it. *)

From Stdlib Require Import ZArith List String Ascii Bool Lia DecimalString.
Import ListNotations.

Local Open Scope string_scope.
Local Open Scope Z_scope.

(** ** JavaScript strings *)

Module Js.

(** [s.length] *)
Fixpoint length (s : string) : Z :=
  match s with
  | EmptyString => 0
  | String _ t => 1 + length t
  end.

(** [s.startsWith(p)] *)
Fixpoint startsWith (s p : string) {struct p} : bool :=
  match p, s with
  | EmptyString, _ => true
  | String _ _, EmptyString => false
  | String a p', String b s' => Ascii.eqb a b && startsWith s' p'
  end.

(** [s.includes(p)] *)
Fixpoint includes (s p : string) : bool :=
  startsWith s p ||
  match s with
  | EmptyString => false
  | String _ t => includes t p
  end.

(** The suffix of [s] that follows [p], when [s] starts with [p]. *)
Fixpoint after (p s : string) : option string :=
  match p, s with
  | EmptyString, _ => Some s
  | String _ _, EmptyString => None
  | String a p', String b s' => if Ascii.eqb a b then after p' s' else None
  end.

(** [s.slice(s.indexOf(p))] when [indexOf] is not [-1]. *)
Fixpoint sliceFrom (p s : string) : option string :=
  if startsWith s p then Some s
  else match s with
       | EmptyString => None
       | String _ t => sliceFrom p t
       end.

Definition code (c : ascii) : N := N_of_ascii c.

(** One code unit of [toLowerCase] on U+0000..U+00FF: the letters A-Z and
    the Latin-1 capitals U+00C0..U+00DE (U+00D7, the multiplication sign,
    has no case). *)
Definition lower_char (c : ascii) : ascii :=
  let n := code c in
  if ((65 <=? n) && (n <=? 90) ||
      (192 <=? n) && (n <=? 222) && negb (n =? 215))%N
  then ascii_of_N (n + 32) else c.

(** [s.toLowerCase()] *)
Fixpoint toLowerCase (s : string) : string :=
  match s with
  | EmptyString => EmptyString
  | String c t => String (lower_char c) (toLowerCase t)
  end.

(** The line terminators a [.] of a regular expression refuses: LF and CR
    (U+2028 and U+2029 lie outside the modelled range). *)
Definition line_terminator (c : ascii) : bool :=
  ((code c =? 10) || (code c =? 13))%N.

Fixpoint has_line_terminator (s : string) : bool :=
  match s with
  | EmptyString => false
  | String c t => line_terminator c || has_line_terminator t
  end.

(** White space removed by [trim] in the modelled range: TAB, LF, VT, FF,
    CR, SPACE and NBSP. *)
Definition white_space (c : ascii) : bool :=
  let n := code c in
  ((9 <=? n) && (n <=? 13) || (n =? 32) || (n =? 160))%N.

Fixpoint rev_onto (s acc : string) : string :=
  match s with
  | EmptyString => acc
  | String c t => rev_onto t (String c acc)
  end.

Definition rev (s : string) : string := rev_onto s EmptyString.

Fixpoint dropWhile (f : ascii -> bool) (s : string) : string :=
  match s with
  | EmptyString => EmptyString
  | String c t => if f c then dropWhile f t else s
  end.

Definition dropWhileEnd (f : ascii -> bool) (s : string) : string :=
  rev (dropWhile f (rev s)).

(** [s.trim()] *)
Definition trim (s : string) : string :=
  dropWhileEnd white_space (dropWhile white_space s).

(** [s.split(',')]: never the empty array, the empty string gives one
    empty piece. *)
Fixpoint split_comma (s : string) : list string :=
  match s with
  | EmptyString => [EmptyString]
  | String c t =>
      if Ascii.eqb c ","%char then EmptyString :: split_comma t
      else match split_comma t with
           | [] => [String c EmptyString]
           | x :: r => String c x :: r
           end
  end.

(** [s.split(';')[0]] *)
Fixpoint before_semicolon (s : string) : string :=
  match s with
  | EmptyString => EmptyString
  | String c t =>
      if Ascii.eqb c ";"%char then EmptyString
      else String c (before_semicolon t)
  end.

(** [n] copies of [c], for payloads too long to write down. *)
Definition replicate (n : N) (c : ascii) : string :=
  N.iter n (String c) EmptyString.

(** [String(n)] for an integer. *)
Definition of_Z (n : Z) : string := NilEmpty.string_of_int (Z.to_int n).

End Js.

(** ** Values of a parsed JSON body *)

(** Numbers are observed for their truthiness only, an integer stands for
    them.  [VUndef] is a missing property. *)
#[warning="-register-all"]
Inductive value : Type :=
| VUndef
| VNull
| VBool (b : bool)
| VNum (n : Z)
| VStr (s : string)
| VArr (l : list value)
| VObj (fields : list (string * value)).

(** [Boolean(v)] *)
Definition truthy (v : value) : bool :=
  match v with
  | VUndef | VNull => false
  | VBool b => b
  | VNum n => negb (n =? 0)
  | VStr s => negb (String.eqb s EmptyString)
  | VArr _ | VObj _ => true
  end.

(** [a || b] *)
Definition js_or (a b : value) : value := if truthy a then a else b.

(** ** Errors *)

(** Every [Error] the two modules construct, and the two kinds thrown by the
    runtime: a failed or aborted [fetch], and a [TypeError]. *)
Inductive error : Type :=
| InvalidDataUri
| UnsupportedMime (mimeType : string)
| ImageTooLarge
| MissingApiKey
| GeminiApiError (status : Z) (responseText : string)
| NoImageData (blockReason : string)
| NoResponse
| FetchError (msg : string)
| TypeError (msg : string).

(** [error.message] *)
Definition message (e : error) : string :=
  match e with
  | InvalidDataUri => "Invalid data URI format"
  | UnsupportedMime m => "Unsupported mime type: " ++ m
  | ImageTooLarge => "Image too large"
  | MissingApiKey => "Missing GEMINI_API_KEY"
  | GeminiApiError st txt =>
      "Gemini API error: " ++ Js.of_Z st ++ " " ++ txt
  | NoImageData b =>
      if String.eqb b EmptyString then "Gemini API returned no image data"
      else "Gemini API returned no image data (blockReason: " ++ b ++ ")"
  | NoResponse => "Failed to get response from Gemini API"
  | FetchError m => m
  | TypeError m => m
  end.

(** A computation that returns or throws. *)
Inductive result (A : Type) : Type :=
| Ok (a : A)
| Throw (e : error).
Arguments Ok {A} a.
Arguments Throw {A} e.

(** ** The data-URI parser (both servers carry the same text) *)

Definition ALLOWED_MIME : list string :=
  ["image/jpeg"; "image/jpg"; "image/png"; "image/webp"; "image/avif"].

Definition MAX_DATAURI_BYTES : Z := 8 * 1024 * 1024.
Definition MAX_REQUEST_SIZE : Z := 25 * 1024 * 1024.

(** [ALLOWED_MIME.has(m)] *)
Definition allowed_mime (m : string) : bool :=
  existsb (String.eqb m) ALLOWED_MIME.

(** The longest prefix without [;] and what follows it: the group
    [([^;]+)] is greedy and cannot step over a [;]. *)
Fixpoint span_mime (s : string) : string * string :=
  match s with
  | EmptyString => (EmptyString, EmptyString)
  | String c t =>
      if Ascii.eqb c ";"%char then (EmptyString, s)
      else let (m, r) := span_mime t in (String c m, r)
  end.

(** [dataUri.match] against the pattern of [parseDataUri]: the literal
    [data:], a group of one or more units other than [;], the literal
    [;base64,], and a group of any units up to the end.  The result holds
    the two groups.  After
    [data:] the first group takes every code unit up to the first [;], and
    must take one at least; backtracking to a shorter group cannot help,
    since the next unit would not be [;].  The last group must reach the end
    of the input, which [.] does only when no line terminator is on the
    way. *)
Definition match_data_uri (s : string) : option (string * string) :=
  match Js.after "data:" s with
  | None => None
  | Some r =>
      let (m, rest) := span_mime r in
      match m with
      | EmptyString => None
      | String _ _ =>
          match Js.after ";base64," rest with
          | None => None
          | Some payload =>
              if Js.has_line_terminator payload then None
              else Some (m, payload)
          end
      end
  end.

Record parsed : Type := mkParsed { p_mimeType : string; p_base64 : string }.

(** [Math.floor((base64Data.length * 3) / 4)] *)
Definition approxBytes (base64Data : string) : Z :=
  (Js.length base64Data * 3) / 4.

Definition parseDataUri (dataUri : value) : result parsed :=
  match dataUri with
  | VStr s =>
      if negb (truthy dataUri) then Throw InvalidDataUri
      else
        match match_data_uri s with
        | None => Throw InvalidDataUri
        | Some (m, base64Data) =>
            let mimeType := Js.toLowerCase m in
            if negb (allowed_mime mimeType) then Throw (UnsupportedMime mimeType)
            else if approxBytes base64Data >? MAX_DATAURI_BYTES
                 then Throw ImageTooLarge
                 else Ok (mkParsed mimeType base64Data)
        end
  | _ => Throw InvalidDataUri
  end.

(** A data URI as the specification writes it. *)
Definition data_uri (mime payload : string) : string :=
  "data:" ++ mime ++ ";base64," ++ payload.

(** A mime type as the pattern can capture it: not empty, no [;]. *)
Fixpoint has_semicolon (s : string) : bool :=
  match s with
  | EmptyString => false
  | String c t => Ascii.eqb c ";"%char || has_semicolon t
  end.

(** A payload of 11184812 units: its estimate is 8388609 bytes, one more
    than [MAX_DATAURI_BYTES]. *)
Definition big_payload : string := Js.replicate 11184812 "A"%char.

(** ** Configuration and requests to the generative API *)

(** [process.env]: each variable is unset or a string. *)
Record env : Type := mkEnv {
  GEMINI_API_KEY : option string;
  GEMINI_MODEL : option string;
  CHROME_EXTENSION_IDS : option string;
  NODE_ENV : option string
}.

(** [{inlineData: {mimeType, data}}], an image part of the request. *)
Record inlinePart : Type := mkInlinePart {
  ip_mimeType : string;
  ip_data : string
}.

(** An optional string as a condition: unset and empty are falsy. *)
Definition truthy_str (o : option string) : bool :=
  match o with
  | Some s => negb (String.eqb s EmptyString)
  | None => false
  end.

(** [a || b] on optional strings. *)
Definition or_str (a b : option string) : option string :=
  if truthy_str a then a else b.

(** [a || 'literal'] *)
Definition or_default (a : option string) (d : string) : string :=
  match a with
  | Some s => if String.eqb s EmptyString then d else s
  | None => d
  end.

(** ** services/gemini.js *)

Module Gemini.

(** The response of the API, as [safeJson] hands it over: [candidates],
    [content], [parts], [inline_data] or [inlineData], [promptFeedback] and
    [blockReason], each of which may be missing. *)
Record inline : Type := mkInline {
  data : option string;
  mime_type : option string;
  mimeType : option string
}.

Record part : Type := mkPart {
  inline_data : option inline;
  inlineData : option inline;
  text : option string
}.

Record candidate : Type := mkCandidate {
  content_parts : option (list part);
  finishReason : option string
}.

Record json : Type := mkJson {
  candidates : list candidate;
  blockReason : option string
}.

(** [safeJson] of a text that does not parse: the empty object. *)
Definition empty_json : json := mkJson [] None.

Record response : Type := mkResponse {
  status : Z;
  responseText : string;
  body : json      (* safeJson(responseText) *)
}.

(** [response.ok] *)
Definition ok (r : response) : bool :=
  (200 <=? status r) && (status r <=? 299).

(** What [fetchWithTimeout] does on one call: the 30 s timer aborts it, the
    network fails, or a response arrives.  The first two throw. *)
Inductive fetch_outcome : Type :=
| TimedOut (msg : string)
| NetworkFailure (msg : string)
| Responded (r : response).

(** The external service: its answer to the call of each attempt. *)
Definition service : Type := Z -> fetch_outcome.

Record request_body : Type := mkBody {
  prompt : string;
  images : list inlinePart
}.

Inductive event : Type :=
| Sleep (ms : Z)
| Post (url : string) (b : request_body).

Record usage : Type := mkUsage {
  u_model : string;
  promptTokens : Z;
  totalTokens : Z
}.

Record generated : Type := mkGenerated {
  dataUrl : string;
  g_usage : usage
}.

Record options : Type := mkOptions {
  userInlinePart : inlinePart;
  overlayInlineParts : list inlinePart;
  productTitle : option string;     (* productContext?.title *)
  aiMode : string;
  extensionId : string
}.

(** [Math.ceil(text.length / 4)], and [0] for the empty text. *)
Definition estimateTokens (text : string) : Z :=
  if String.eqb text EmptyString then 0
  else let n := Js.length text in
       if n mod 4 =? 0 then n / 4 else n / 4 + 1.

(** [pieces.filter(Boolean).join(' ')] *)
Fixpoint join_space (pieces : list string) : string :=
  match pieces with
  | [] => EmptyString
  | [x] => x
  | x :: r => x ++ " " ++ join_space r
  end.

Definition nonempty (s : string) : bool := negb (String.eqb s EmptyString).

Definition sysPrompt (title : option string) : string :=
  let categoryText :=
    if truthy_str title then "Product: " ++ or_default title EmptyString
    else EmptyString in
  join_space (filter nonempty [
    "TASK: Virtual clothing try-on. Replace ALL clothing items worn by the person in the first image with the complete outfit/garment shown in the multiple product reference images.";
    "REQUIREMENTS:";
    "- Use ALL product reference images to understand the garment from different angles, lighting, and details";
    "- Replace the entire outfit - ALL clothing pieces visible on the person, not just one item";
    "- Combine information from multiple product views for the most accurate color, pattern, texture, and fit";
    "- Accurately fit the new garment to the person's body shape and posture";
    "- Maintain realistic fabric draping, shadows, and lighting that matches the original scene";
    "- Preserve the person's pose, facial features, skin tone, and body proportions exactly";
    "- Keep the background completely unchanged";
    "- If aspect ratios don't match output size, crop to focus on the person rather than squishing or distorting the image";
    "- Ensure the garment details match what is shown across all product reference images";
    "- Make the transformation look natural and professionally fitted";
    categoryText;
    "OUTPUT: Generate a high-resolution 2K (2048px minimum) image. Return only the modified image as data:image/png;base64,<BASE64> format. Make clear visual changes with maximum detail and quality."
  ]).

Definition maxRetries : Z := 3.
Definition baseDelay : Z := 1000.

Definition png_prefix : string := "data:image/png;base64,".

(** [part?.inline_data || part?.inlineData]: an object is truthy, so the
    snake-case field wins whenever it is there. *)
Definition selected_inline (p : part) : option inline :=
  match inline_data p with
  | Some i => Some i
  | None => inlineData p
  end.

(** [inline?.mime_type || inline?.mimeType] *)
Definition declared_mime (i : inline) : option string :=
  or_str (mime_type i) (mimeType i).

(** The body of the first [for ... of partsResp]: the data of the part when
    the part is taken as the image. *)
Definition inline_image (p : part) : option string :=
  let inline := selected_inline p in
  let data := match inline with Some i => data i | None => None end in
  let mimeType :=
    match inline with
    | Some i => declared_mime i
    | None => None
    end in
  if truthy_str data &&
     (if truthy_str mimeType
      then Js.includes (or_default mimeType EmptyString) "image/"
      else true)
  then data else None.

Fixpoint first_inline_image (ps : list part) : option string :=
  match ps with
  | [] => None
  | p :: r =>
      match inline_image p with
      | Some d => Some d
      | None => first_inline_image r
      end
  end.

(** The class of the trailing-punctuation pattern: backquote, quote, double
    quote, closing parenthesis, closing bracket. *)
Definition trailing_artifact (c : ascii) : bool :=
  let n := Js.code c in
  ((n =? 96) || (n =? 39) || (n =? 34) || (n =? 41) || (n =? 93))%N.

(** The body of the second loop: the cleaned literal found in the text of
    the part. *)
Definition text_image (p : part) : option string :=
  match text p with
  | None => None
  | Some t =>
      if String.eqb t EmptyString then None
      else match Js.sliceFrom png_prefix t with
           | None => None
           | Some candidate =>
               Some (Js.dropWhileEnd trailing_artifact (Js.trim candidate))
           end
  end.

Fixpoint first_text_image (ps : list part) : option string :=
  match ps with
  | [] => None
  | p :: r =>
      match text_image p with
      | Some d => Some d
      | None => first_text_image r
      end
  end.

(** [json?.candidates?.[0]?.content?.parts || []] *)
Definition partsResp (j : json) : list part :=
  match candidates j with
  | c :: _ => match content_parts c with Some ps => ps | None => [] end
  | [] => []
  end.

(** The two scans of the parts, the inline one first: the [dataUrl] that
    is returned, if any. *)
Definition extract_image (j : json) : option string :=
  match first_inline_image (partsResp j) with
  | Some d => Some (png_prefix ++ d)
  | None => first_text_image (partsResp j)
  end.

(** How the [try] block of one attempt ends. *)
Inductive attempt_end : Type :=
| Returns (g : generated)
| Continues (lastError : error)      (* the [continue] of line 86 *)
| Throws (e : error).

Definition isRetryableError (st : Z) : bool :=
  (st =? 500) || (st =? 502) || (st =? 503).

(** The [try] block after the delay: from the outcome of the fetch to the
    end of the block. *)
Definition try_block (model prompt : string) (attempt : Z)
    (o : fetch_outcome) : attempt_end :=
  match o with
  | TimedOut m => Throws (FetchError m)
  | NetworkFailure m => Throws (FetchError m)
  | Responded r =>
      if negb (ok r) then
        if isRetryableError (status r) && (attempt <? maxRetries)
        then Continues (GeminiApiError (status r) (responseText r))
        else Throws (GeminiApiError (status r) (responseText r))
      else
        let u := mkUsage model (estimateTokens prompt) (estimateTokens prompt) in
        match extract_image (body r) with
        | Some url => Returns (mkGenerated url u)
        | None =>
            Throws (NoImageData (or_default (blockReason (body r)) EmptyString))
        end
  end.

Definition delay_before (attempt : Z) : list event :=
  if attempt >? 1 then [Sleep (baseDelay * 2 ^ (attempt - 1))] else [].

(** The [for] loop, [remaining] iterations before [attempt] exceeds
    [maxRetries]; after the loop, the final [throw]. *)
Fixpoint retry_loop (srv : service) (url : string) (b : request_body)
    (model : string) (remaining : nat) (attempt : Z)
    (lastError : option error) : result generated * list event :=
  match remaining with
  | O =>
      (Throw match lastError with Some e => e | None => NoResponse end, [])
  | S k =>
      let evs := (delay_before attempt ++ [Post url b])%list in
      let next e :=
        let (r, tr) := retry_loop srv url b model k (attempt + 1) (Some e) in
        (r, (evs ++ tr)%list) in
      match try_block model (prompt b) attempt (srv attempt) with
      | Returns g => (Ok g, evs)
      | Continues e => next e
      | Throws e =>
          (* catch (error) *)
          if attempt =? maxRetries then (Throw e, evs) else next e
      end
  end.

(** [process.env.GEMINI_MODEL || 'gemini-2.5-flash-image-preview'] *)
Definition model_of (e : env) : string :=
  or_default (GEMINI_MODEL e) "gemini-2.5-flash-image-preview".

(** The [url] of line 60. *)
Definition url_of (e : env) (apiKey : string) : string :=
  "https://generativelanguage.googleapis.com/v1beta/models/"
  ++ model_of e ++ ":generateContent?key=" ++ apiKey.

(** The [parts] of the request: the prompt first, then the images. *)
Definition body_of (o : options) : request_body :=
  mkBody (sysPrompt (productTitle o)) (userInlinePart o :: overlayInlineParts o).

Definition generateOverlayedImage (e : env) (srv : service) (o : options)
    : result generated * list event :=
  match GEMINI_API_KEY e with
  | None => (Throw MissingApiKey, [])
  | Some apiKey =>
      if String.eqb apiKey EmptyString then (Throw MissingApiKey, [])
      else
        retry_loop srv (url_of e apiKey) (body_of o) (model_of e)
                   (Z.to_nat maxRetries) 1 None
  end.

(** The outbound calls and the delays of a run. *)
Definition is_post (ev : event) : bool :=
  match ev with Post _ _ => true | Sleep _ => false end.

Definition attempts_made (tr : list event) : nat :=
  List.length (filter is_post tr).

Fixpoint delays (tr : list event) : list Z :=
  match tr with
  | [] => []
  | Sleep ms :: r => ms :: delays r
  | Post _ _ :: r => delays r
  end.

End Gemini.

(** ** The Express servers *)

(** A try-on request: the caller-identity header, the length of the
    serialised body, and the properties of [req.body] the handlers read. *)
Record request : Type := mkRequest {
  header_extension_id : option string;  (* req.headers['x-mm-extension-id'] *)
  requestSizeEstimate : Z;              (* JSON.stringify(req.body).length *)
  b_extensionId : value;
  b_studioId : value;
  b_userImage : value;
  b_overlayData : value;
  b_overlayUrls : value;
  b_productTitle : option string;       (* productContext?.title *)
  b_useStudioMode : value;
  b_planType : value
}.

Inductive http_body : Type :=
| ErrorBody (error code : string) (details : option string)
| TryOnBody (result : string) (usage : Gemini.usage).

Record http_response : Type := mkHttp {
  http_status : Z;
  http_body_of : http_body
}.

(** What one overlay [fetch] does: it throws, or a response arrives with a
    status, a content type and a body (held in base64). *)
Inductive overlay_outcome : Type :=
| OverlayThrows (msg : string)
| OverlayResponse (status : Z) (contentType : option string) (base64 : string).

(** The outside world of a handler. *)
Record world : Type := mkWorld {
  studio_file : value -> option string;   (* fs.readFile, in base64; None: it throws *)
  overlay_fetch : value -> overlay_outcome;
  gemini : Gemini.service
}.

Inductive event : Type :=
| ReadStudio (studioId : value)
| FetchOverlay (url : value)
| Synthesis (ev : Gemini.event).

Definition is_overlay_fetch (ev : event) : bool :=
  match ev with FetchOverlay _ => true | _ => false end.

(** [process.env.CHROME_EXTENSION_IDS?.split(',') || []] *)
Definition allowedIds (e : env) : list string :=
  match CHROME_EXTENSION_IDS e with
  | Some s => Js.split_comma s
  | None => []
  end.

(** [req.body?.extensionId || req.headers['x-mm-extension-id']] *)
Definition caller_id (req : request) : value :=
  js_or (b_extensionId req)
        match header_extension_id req with
        | Some h => VStr h
        | None => VUndef
        end.

(** [allowedIds.includes(extensionId)]: only a string equals a string. *)
Definition ids_include (ids : list string) (v : value) : bool :=
  match v with
  | VStr s => existsb (String.eqb s) ids
  | _ => false
  end.

Definition forbidden : http_response :=
  mkHttp 403 (ErrorBody "Extension not authorized" "INVALID_EXTENSION_ID" None).

(** The middleware: the response that ends the request, or [next()] with
    [req.extensionId] set. *)
Definition validateExtension (e : env) (req : request)
    : http_response + value :=
  let extensionId := caller_id req in
  if negb (ids_include (allowedIds e) extensionId) then inl forbidden
  else inr extensionId.

(** [array.filter(Boolean)] on parts that are objects or [null]. *)
Fixpoint filter_Boolean {A : Type} (l : list (option A)) : list A :=
  match l with
  | [] => []
  | Some a :: r => a :: filter_Boolean r
  | None :: r => filter_Boolean r
  end.

Definition to_part (p : parsed) : inlinePart :=
  mkInlinePart (p_mimeType p) (p_base64 p).

(** The callback of [urls.map] once its fetch has settled. *)
Definition fetched_part (o : overlay_outcome) : option inlinePart :=
  match o with
  | OverlayThrows _ => None
  | OverlayResponse st ct b64 =>
      if negb ((200 <=? st) && (st <=? 299)) then None
      else
        let mimeType := Js.before_semicolon (or_default ct "image/jpeg") in
        if negb (allowed_mime mimeType) then None
        else Some (mkInlinePart mimeType b64)
  end.

Definition is_nonempty_array (v : value) : option (list value) :=
  match v with
  | VArr (x :: r) => Some (x :: r)
  | _ => None
  end.

(** [planType === 'unlimited' ? 'accurate' : 'fast'] *)
Definition aiMode_of (planType : value) : string :=
  match planType with
  | VStr s => if String.eqb s "unlimited" then "accurate" else "fast"
  | _ => "fast"
  end.

Definition id_string (v : value) : string :=
  match v with VStr s => s | _ => EmptyString end.

Definition development (e : env) : bool :=
  match NODE_ENV e with
  | Some s => String.eqb s "development"
  | None => false
  end.

Definition lift (r : result Gemini.generated * list Gemini.event)
    : result Gemini.generated * list event :=
  (fst r, map Synthesis (snd r)).

(** *** The server with studio mode (first text of the handler) *)

Module Server.

(** [overlayData.slice(0, 3).map(...)], each entry in its own [try]. *)
Definition decode_entry (dataUri : value) : option inlinePart :=
  match parseDataUri dataUri with
  | Ok p => Some (to_part p)
  | Throw _ => None
  end.

Definition overlays_from_data (overlayData : list value) : list inlinePart :=
  filter_Boolean (map decode_entry (firstn 3 overlayData)).

Definition overlays_from_urls (w : world) (overlayUrls : list value)
    : list inlinePart * list event :=
  let urls := firstn 3 overlayUrls in
  (filter_Boolean (map (fun u => fetched_part (overlay_fetch w u)) urls),
   map FetchOverlay urls).

(** The two branches that fill [overlayInlineParts]. *)
Definition resolve_overlays (w : world) (req : request)
    : list inlinePart * list event :=
  match is_nonempty_array (b_overlayData req) with
  | Some overlayData => (overlays_from_data overlayData, [])
  | None =>
      match is_nonempty_array (b_overlayUrls req) with
      | Some overlayUrls => overlays_from_urls w overlayUrls
      | None => ([], [])
      end
  end.

(** The [catch] of the handler. *)
Definition on_error (e : env) (err : error) : http_response :=
  let m := message err in
  if Js.includes m "Image too large" then
    mkHttp 413 (ErrorBody "Image too large. Please try a smaller image."
                          "IMAGE_TOO_LARGE" None)
  else if Js.includes m "Unsupported mime" || Js.includes m "Invalid data URI" then
    mkHttp 422 (ErrorBody "Invalid image format. Please use JPG, PNG, or WebP images."
                          "INVALID_IMAGE_FORMAT" None)
  else if Js.includes m "Missing GEMINI_API_KEY" then
    mkHttp 500 (ErrorBody "AI service not configured. Please contact support."
                          "SERVICE_UNAVAILABLE" None)
  else if Js.includes m "quota" || Js.includes m "rate limit" then
    mkHttp 429 (ErrorBody "Service temporarily at capacity. Please try again in a moment."
                          "RATE_LIMITED" None)
  else
    mkHttp 500 (ErrorBody "AI generation temporarily unavailable. Please try again."
                          "GENERATION_FAILED"
                          (if development e then Some m else None)).

(** The studio image replaces the user image when it can be read. *)
Definition actualUserImage (w : world) (req : request) : value * list event :=
  if truthy (b_useStudioMode req) && truthy (b_studioId req) then
    (match studio_file w (b_studioId req) with
     | Some b64 => VStr ("data:image/jpeg;base64," ++ b64)
     | None => b_userImage req
     end, [ReadStudio (b_studioId req)])
  else (b_userImage req, []).

(** The [try] block of the handler: a response, or an error for the
    [catch]. *)
Definition try_block (e : env) (w : world) (req : request) (extensionId : value)
    : result http_response * list event :=
  if requestSizeEstimate req >? MAX_REQUEST_SIZE then
    (Ok (mkHttp 413 (ErrorBody "Request too large" "REQUEST_TOO_LARGE" None)), [])
  else
    let (image, ev1) := actualUserImage w req in
    let invalid :=
      (Ok (mkHttp 400 (ErrorBody "userImage must be a data URI"
                                 "INVALID_USER_IMAGE" None)), ev1) in
    match image with
    | VUndef | VNull => invalid
    | VStr s =>
        if negb (Js.startsWith s "data:") then invalid
        else
          match parseDataUri image with
          | Throw err => (Throw err, ev1)
          | Ok userParsed =>
              let (overlayInlineParts, ev2) := resolve_overlays w req in
              match overlayInlineParts with
              | [] =>
                  (Ok (mkHttp 422 (ErrorBody "No valid overlay images provided"
                                             "NO_OVERLAY_IMAGES" None)),
                   (ev1 ++ ev2)%list)
              | _ :: _ =>
                  let o := Gemini.mkOptions (to_part userParsed) overlayInlineParts
                             (b_productTitle req) (aiMode_of (b_planType req))
                             (id_string extensionId) in
                  let (r, ev3) := lift (Gemini.generateOverlayedImage e (gemini w) o) in
                  (match r with
                   | Ok g => Ok (mkHttp 200 (TryOnBody (Gemini.dataUrl g) (Gemini.g_usage g)))
                   | Throw err => Throw err
                   end, (ev1 ++ ev2 ++ ev3)%list)
              end
          end
    | _ => (Throw (TypeError "actualUserImage?.startsWith is not a function"), ev1)
    end.

(** [POST /api/extension/tryon] *)
Definition tryon (e : env) (w : world) (req : request)
    : http_response * list event :=
  match validateExtension e req with
  | inl rejected => (rejected, [])
  | inr extensionId =>
      let (r, evs) := try_block e w req extensionId in
      (match r with
       | Ok resp => resp
       | Throw err => on_error e err
       end, evs)
  end.

End Server.

(** *** The server without studio mode (second text of the handler) *)

Module ServerSimple.

(** [overlayData.slice(0, 3).map(...)] with no [try] around [parseDataUri]:
    the first entry that does not parse throws out of the [map]. *)
Fixpoint decode_all (entries : list value) : result (list inlinePart) :=
  match entries with
  | [] => Ok []
  | dataUri :: r =>
      match parseDataUri dataUri with
      | Throw err => Throw err
      | Ok p =>
          match decode_all r with
          | Throw err => Throw err
          | Ok ps => Ok (to_part p :: ps)
          end
      end
  end.

Definition resolve_overlays (w : world) (req : request)
    : result (list inlinePart) * list event :=
  match is_nonempty_array (b_overlayData req) with
  | Some overlayData => (decode_all (firstn 3 overlayData), [])
  | None =>
      match is_nonempty_array (b_overlayUrls req) with
      | Some overlayUrls =>
          let (ps, evs) := Server.overlays_from_urls w overlayUrls in (Ok ps, evs)
      | None => (Ok [], [])
      end
  end.

Definition on_error (e : env) (err : error) : http_response :=
  let m := message err in
  if Js.includes m "Image too large" then
    mkHttp 413 (ErrorBody m "IMAGE_TOO_LARGE" None)
  else if Js.includes m "Unsupported mime" || Js.includes m "Invalid data URI" then
    mkHttp 400 (ErrorBody m "INVALID_IMAGE_FORMAT" None)
  else
    mkHttp 500 (ErrorBody "Internal server error" "GENERATION_FAILED"
                          (if development e then Some m else None)).

Definition try_block (e : env) (w : world) (req : request) (extensionId : value)
    : result http_response * list event :=
  let invalid :=
    (Ok (mkHttp 400 (ErrorBody "userImage must be a data URI"
                               "INVALID_USER_IMAGE" None)), []) in
  match b_userImage req with
  | VUndef | VNull => invalid
  | VStr s =>
      if negb (Js.startsWith s "data:") then invalid
      else
        match parseDataUri (b_userImage req) with
        | Throw err => (Throw err, [])
        | Ok userParsed =>
            match resolve_overlays w req with
            | (Throw err, ev2) => (Throw err, ev2)
            | (Ok [], ev2) =>
                (Ok (mkHttp 422 (ErrorBody "No valid overlay images provided"
                                           "NO_OVERLAY_IMAGES" None)), ev2)
            | (Ok overlayInlineParts, ev2) =>
                let o := Gemini.mkOptions (to_part userParsed) overlayInlineParts
                           (b_productTitle req) (aiMode_of (b_planType req))
                           (id_string extensionId) in
                let (r, ev3) := lift (Gemini.generateOverlayedImage e (gemini w) o) in
                (match r with
                 | Ok g => Ok (mkHttp 200 (TryOnBody (Gemini.dataUrl g) (Gemini.g_usage g)))
                 | Throw err => Throw err
                 end, (ev2 ++ ev3)%list)
            end
        end
  | _ => (Throw (TypeError "userImage?.startsWith is not a function"), [])
  end.

(** [POST /api/extension/tryon] *)
Definition tryon (e : env) (w : world) (req : request)
    : http_response * list event :=
  match validateExtension e req with
  | inl rejected => (rejected, [])
  | inr extensionId =>
      let (r, evs) := try_block e w req extensionId in
      (match r with
       | Ok resp => resp
       | Throw err => on_error e err
       end, evs)
  end.

End ServerSimple.

(** ** Vocabulary of the statements *)

(** The same request with another [overlayUrls], the same world with
    another behaviour of the overlay fetches. *)
Definition with_overlayUrls (req : request) (urls : value) : request :=
  mkRequest (header_extension_id req) (requestSizeEstimate req)
    (b_extensionId req) (b_studioId req) (b_userImage req)
    (b_overlayData req) urls (b_productTitle req) (b_useStudioMode req)
    (b_planType req).

Definition with_overlay_fetch (w : world) (f : value -> overlay_outcome) : world :=
  mkWorld (studio_file w) f (gemini w).

Definition no_overlay_images : http_response :=
  mkHttp 422 (ErrorBody "No valid overlay images provided" "NO_OVERLAY_IMAGES" None).

(** The entries that decode, in the order of the input. *)
Definition decoded (entries : list value) : list inlinePart :=
  filter_Boolean (map Server.decode_entry entries).

(** The [origin] callback handed to the CORS middleware (the same text in
    both servers): [None] is a request without an [Origin] header. *)
Definition cors_allows (origin : option string) : bool :=
  match origin with
  | None => true
  | Some o =>
      String.eqb o EmptyString
      || Js.startsWith o "chrome-extension://"
      || Js.startsWith o "moz-extension://"
      || Js.includes o "localhost"
  end.

(** More vocabulary: a comma inside an identifier, the configured list
    written out, requests that differ in one property, the failures the
    retry policy is meant for, and the pieces of a response. *)
Fixpoint has_comma (s : string) : bool :=
  match s with
  | EmptyString => false
  | String c t => Ascii.eqb c ","%char || has_comma t
  end.

Fixpoint join_comma (ids : list string) : string :=
  match ids with
  | [] => EmptyString
  | [x] => x
  | x :: r => x ++ "," ++ join_comma r
  end.

(** The request whose body differs in [userImage] only, and so in its
    serialised length; likewise for [planType]. *)
Definition with_userImage (req : request) (image : value) (size : Z) : request :=
  mkRequest (header_extension_id req) size
    (b_extensionId req) (b_studioId req) image
    (b_overlayData req) (b_overlayUrls req) (b_productTitle req)
    (b_useStudioMode req) (b_planType req).

Definition with_planType (req : request) (planType : value) (size : Z) : request :=
  mkRequest (header_extension_id req) size
    (b_extensionId req) (b_studioId req) (b_userImage req)
    (b_overlayData req) (b_overlayUrls req) (b_productTitle req)
    (b_useStudioMode req) planType.

(** A timeout, a network failure, or one of the statuses 500, 502, 503. *)
Definition transient (o : Gemini.fetch_outcome) : bool :=
  match o with
  | Gemini.TimedOut _ | Gemini.NetworkFailure _ => true
  | Gemini.Responded r =>
      negb (Gemini.ok r) && Gemini.isRetryableError (Gemini.status r)
  end.

Definition is_synthesis (ev : event) : bool :=
  match ev with Synthesis _ => true | _ => false end.

Definition details_of (r : http_response) : option string :=
  match http_body_of r with
  | ErrorBody _ _ d => d
  | TryOnBody _ _ => None
  end.

Definition code_of (r : http_response) : option string :=
  match http_body_of r with
  | ErrorBody _ c _ => Some c
  | TryOnBody _ _ => None
  end.

(** A response of a try-on handler as a caller may rely on it: a status of
    the given set, a machine code exactly when the status is not 200, and
    the error detail only in development mode. *)
Definition well_formed (e : env) (statuses : list Z) (r : http_response) : Prop :=
  In (http_status r) statuses /\
  (http_status r = 200 <-> code_of r = None) /\
  (development e = false -> details_of r = None).

(** The delays of [n] consecutive attempts, the first numbered [attempt]. *)
Fixpoint backoff (attempt : Z) (n : nat) : list Z :=
  match n with
  | O => []
  | S k =>
      (Gemini.delays (Gemini.delay_before attempt) ++ backoff (attempt + 1) k)%list
  end.

(** ** Sample data *)

Module Sample.

Definition e : env :=
  mkEnv (Some "k3y") None (Some "gphnamdjcdhpmfeongphlidjlahkjafk") None.

Definition user : inlinePart := mkInlinePart "image/jpeg" "AAAA".
Definition shirt : inlinePart := mkInlinePart "image/png" "BBBB".

Definition o : Gemini.options :=
  Gemini.mkOptions user [shirt] None "fast" "gphnamdjcdhpmfeongphlidjlahkjafk".

Definition image_part (mime : option string) (d : string) : Gemini.part :=
  Gemini.mkPart None (Some (Gemini.mkInline (Some d) None mime)) None.

Definition with_parts (ps : list Gemini.part) : Gemini.json :=
  Gemini.mkJson [Gemini.mkCandidate (Some ps) (Some "STOP")] None.

Definition answer (st : Z) (ps : list Gemini.part) : Gemini.fetch_outcome :=
  Gemini.Responded (Gemini.mkResponse st "{}" (with_parts ps)).

(** The service answers [a1] to the first call, [a2] to the second and [a3]
    to every later one. *)
Definition script (a1 a2 a3 : Gemini.fetch_outcome) : Gemini.service :=
  fun attempt =>
    if attempt =? 1 then a1 else if attempt =? 2 then a2 else a3.

Definition picture : Gemini.fetch_outcome :=
  answer 200 [image_part (Some "image/jpeg") "QUJD"].

Definition req : request :=
  mkRequest None 100 (VStr "gphnamdjcdhpmfeongphlidjlahkjafk") VUndef
    (VStr "data:image/jpeg;base64,AAAA")
    (VArr [VStr "data:image/png;base64,BBBB"]) VUndef None VUndef VUndef.

Definition w : world :=
  mkWorld (fun _ => None) (fun _ => OverlayThrows "unreachable") (fun _ => picture).

End Sample.

(** * Properties *)

(** ** Strings *)

Section StringFacts.

Lemma length_nonneg (s : string) : 0 <= Js.length s.
Proof. induction s as [|c t IH]; cbn [Js.length]; lia. Qed.

Lemma replicate_succ (n : N) (c : ascii) :
  Js.replicate (N.succ n) c = String c (Js.replicate n c).
Proof. unfold Js.replicate. now rewrite N.iter_succ. Qed.

Lemma length_replicate (n : N) (c : ascii) :
  Js.length (Js.replicate n c) = Z.of_N n.
Proof.
  induction n as [|n IH] using N.peano_ind.
  - reflexivity.
  - rewrite replicate_succ. cbn [Js.length]. rewrite IH. lia.
Qed.

Lemma replicate_no_line_terminator (n : N) (c : ascii) :
  Js.line_terminator c = false ->
  Js.has_line_terminator (Js.replicate n c) = false.
Proof.
  intros Hc. induction n as [|n IH] using N.peano_ind.
  - reflexivity.
  - rewrite replicate_succ. simpl. now rewrite Hc, IH.
Qed.

Lemma after_app (p s : string) : Js.after p (p ++ s) = Some s.
Proof.
  induction p as [|a p IH]; simpl.
  - reflexivity.
  - now rewrite Ascii.eqb_refl.
Qed.

Lemma startsWith_app (p s : string) : Js.startsWith (p ++ s) p = true.
Proof.
  induction p as [|a p IH]; simpl.
  - reflexivity.
  - now rewrite Ascii.eqb_refl.
Qed.

End StringFacts.

(** ** The shape of a data URI *)

Section DataUri.

Lemma span_mime_stops (m rest : string) :
  has_semicolon m = false ->
  span_mime (m ++ String ";"%char rest) = (m, String ";"%char rest).
Proof.
  induction m as [|c m IH]; simpl; intros H.
  - reflexivity.
  - apply orb_false_iff in H as [Hc Hm]. rewrite Hc, (IH Hm). reflexivity.
Qed.

Lemma match_data_uri_shape (m payload : string) :
  m <> EmptyString ->
  has_semicolon m = false ->
  Js.has_line_terminator payload = false ->
  match_data_uri (data_uri m payload) = Some (m, payload).
Proof.
  intros Hne Hsemi Hlt. unfold match_data_uri, data_uri.
  rewrite after_app.
  change (m ++ ";base64," ++ payload)
    with (m ++ String ";"%char ("base64," ++ payload)).
  rewrite (span_mime_stops _ _ Hsemi).
  destruct m as [|c m]; [congruence|].
  change (String ";" ("base64," ++ payload)) with (";base64," ++ payload).
  now rewrite after_app, Hlt.
Qed.

Lemma lower_char_semicolon (c : ascii) :
  Ascii.eqb (Js.lower_char c) ";"%char = Ascii.eqb c ";"%char.
Proof.
  destruct c as [[] [] [] [] [] [] [] []]; reflexivity.
Qed.

Lemma has_semicolon_lower (m : string) :
  has_semicolon (Js.toLowerCase m) = has_semicolon m.
Proof.
  induction m as [|c m IH]; simpl.
  - reflexivity.
  - now rewrite lower_char_semicolon, IH.
Qed.

Lemma allowed_mime_In (m : string) :
  allowed_mime m = true <-> In m ALLOWED_MIME.
Proof.
  unfold allowed_mime. rewrite existsb_exists. split.
  - intros [x [Hin Heq]]. apply String.eqb_eq in Heq. now subst.
  - intros Hin. exists m. split; [assumption | apply String.eqb_refl].
Qed.

Lemma allowed_shape (m : string) :
  allowed_mime (Js.toLowerCase m) = true ->
  m <> EmptyString /\ has_semicolon m = false.
Proof.
  intros H. split.
  - intros ->. discriminate H.
  - rewrite <- has_semicolon_lower.
    apply allowed_mime_In in H. simpl in H.
    repeat (destruct H as [<- | H]; [reflexivity|]). contradiction.
Qed.

Lemma allowed_is_lower (m : string) :
  allowed_mime m = true -> Js.toLowerCase m = m.
Proof.
  intros H. apply allowed_mime_In in H. simpl in H.
  repeat (destruct H as [<- | H]; [reflexivity|]). contradiction.
Qed.

(** [parseDataUri] on a string of the shape [data:m;base64,payload]. *)
Lemma parseDataUri_shape (m payload : string) :
  m <> EmptyString ->
  has_semicolon m = false ->
  Js.has_line_terminator payload = false ->
  parseDataUri (VStr (data_uri m payload)) =
    if negb (allowed_mime (Js.toLowerCase m))
    then Throw (UnsupportedMime (Js.toLowerCase m))
    else if approxBytes payload >? MAX_DATAURI_BYTES
         then Throw ImageTooLarge
         else Ok (mkParsed (Js.toLowerCase m) payload).
Proof.
  intros Hne Hsemi Hlt. unfold parseDataUri.
  rewrite (match_data_uri_shape _ _ Hne Hsemi Hlt).
  reflexivity.
Qed.

End DataUri.

(** ** parseDataUri *)

Lemma big_payload_estimate : approxBytes big_payload = MAX_DATAURI_BYTES + 1.
Proof.
  unfold approxBytes, big_payload. rewrite length_replicate. reflexivity.
Qed.

Lemma big_payload_one_line : Js.has_line_terminator big_payload = false.
Proof. apply replicate_no_line_terminator. reflexivity. Qed.

(** X5: a mime type outside the allow-list is refused before the size is
    looked at. *)
Lemma unsupported_whatever_the_size (m payload : string) :
  m <> EmptyString ->
  has_semicolon m = false ->
  Js.has_line_terminator payload = false ->
  allowed_mime (Js.toLowerCase m) = false ->
  parseDataUri (VStr (data_uri m payload))
  = Throw (UnsupportedMime (Js.toLowerCase m)).
Proof.
  intros Hne Hsemi Hlt Hno.
  rewrite (parseDataUri_shape _ _ Hne Hsemi Hlt), Hno. reflexivity.
Qed.

(** An allow-listed mime type and a payload within the ceiling. *)
Lemma parse_allowed_small (m payload : string) :
  allowed_mime (Js.toLowerCase m) = true ->
  Js.has_line_terminator payload = false ->
  approxBytes payload <= MAX_DATAURI_BYTES ->
  parseDataUri (VStr (data_uri m payload))
  = Ok (mkParsed (Js.toLowerCase m) payload).
Proof.
  intros Hok Hlt Hsmall.
  destruct (allowed_shape m Hok) as [Hne Hsemi].
  rewrite (parseDataUri_shape _ _ Hne Hsemi Hlt), Hok. cbn [negb].
  destruct (approxBytes payload >? MAX_DATAURI_BYTES) eqn:E; [|reflexivity].
  apply Z.gtb_lt in E. lia.
Qed.

(** C3 as stated fails: a payload estimated above 8 MiB under the mime type
    [text/plain], which is outside the allow-list, is refused with
    'Unsupported mime type: text/plain' and not with 'Image too large'. *)
Lemma C3_unsupported_mime_reported_first :
  MAX_DATAURI_BYTES < approxBytes big_payload /\
  parseDataUri (VStr (data_uri "text/plain" big_payload))
  = Throw (UnsupportedMime "text/plain") /\
  parseDataUri (VStr (data_uri "text/plain" big_payload)) <> Throw ImageTooLarge.
Proof.
  assert (H : parseDataUri (VStr (data_uri "text/plain" big_payload))
              = Throw (UnsupportedMime "text/plain")).
  { rewrite (parseDataUri_shape "text/plain" big_payload);
      [reflexivity | discriminate | reflexivity | exact big_payload_one_line]. }
  split; [rewrite big_payload_estimate; unfold MAX_DATAURI_BYTES; lia|].
  split; [exact H|]. rewrite H. discriminate.
Qed.

(** C3 (amended): for a data URI [data:m;base64,payload] (a mime type
    without [;], a payload on one line) whose estimated size
    floor(len(payload) * 3 / 4) exceeds 8 MiB, [parseDataUri] throws 'Image
    too large' when the mime type, lower-cased, is in the allow-list, and
    'Unsupported mime type' when it is not: the mime check comes first. *)
Theorem C3_too_large_after_mime_check (m payload : string) :
  m <> EmptyString ->
  has_semicolon m = false ->
  Js.has_line_terminator payload = false ->
  MAX_DATAURI_BYTES < approxBytes payload ->
  parseDataUri (VStr (data_uri m payload))
  = if allowed_mime (Js.toLowerCase m) then Throw ImageTooLarge
    else Throw (UnsupportedMime (Js.toLowerCase m)).
Proof.
  intros Hne Hsemi Hlt Hbig.
  rewrite (parseDataUri_shape _ _ Hne Hsemi Hlt).
  destruct (allowed_mime (Js.toLowerCase m)); cbn [negb].
  - apply Z.gtb_lt in Hbig. now rewrite Hbig.
  - reflexivity.
Qed.

Lemma C3_witness :
  MAX_DATAURI_BYTES < approxBytes big_payload /\
  parseDataUri (VStr (data_uri "image/png" big_payload)) = Throw ImageTooLarge.
Proof.
  assert (Hbig : MAX_DATAURI_BYTES < approxBytes big_payload).
  { rewrite big_payload_estimate. unfold MAX_DATAURI_BYTES. lia. }
  split; [exact Hbig|].
  apply (C3_too_large_after_mime_check "image/png" big_payload).
  - discriminate.
  - reflexivity.
  - exact big_payload_one_line.
  - exact Hbig.
Defined.

(** C5 as stated fails: the mime type [IMAGE/PNG] is in the allow-list
    when matched without regard to case, the payload is small, and the
    result carries [image/png], not the mime type as the URI writes it. *)
Lemma C5_mime_is_lowercased :
  parseDataUri (VStr (data_uri "IMAGE/PNG" "iVBORw0KGgo="))
  = Ok (mkParsed "image/png" "iVBORw0KGgo=") /\
  p_mimeType (mkParsed "image/png" "iVBORw0KGgo=") <> "IMAGE/PNG".
Proof. split; [reflexivity | discriminate]. Qed.

(** C5 (amended): for a data URI [data:m;base64,payload] whose mime type,
    lower-cased, is in the allow-list, whose payload holds no line
    terminator and is estimated at 8 MiB at most, [parseDataUri] returns
    the lower-cased mime type (the mime type as written when that is
    already in the allow-list) and the payload unmodified. *)
Theorem C5_decode_roundtrip (m payload : string) :
  allowed_mime (Js.toLowerCase m) = true ->
  Js.has_line_terminator payload = false ->
  approxBytes payload <= MAX_DATAURI_BYTES ->
  parseDataUri (VStr (data_uri m payload))
  = Ok (mkParsed (Js.toLowerCase m) payload) /\
  (allowed_mime m = true ->
   parseDataUri (VStr (data_uri m payload)) = Ok (mkParsed m payload)).
Proof.
  intros Hok Hlt Hsmall.
  pose proof (parse_allowed_small m payload Hok Hlt Hsmall) as H.
  split; [exact H|].
  intros Hm. now rewrite H, (allowed_is_lower m Hm).
Qed.

Lemma C5_witness :
  parseDataUri (VStr (data_uri "image/WebP" "UklGRg=="))
  = Ok (mkParsed "image/webp" "UklGRg==").
Proof.
  apply (C5_decode_roundtrip "image/WebP" "UklGRg==").
  - reflexivity.
  - reflexivity.
  - vm_compute. discriminate.
Defined.

(** C8: a data URI with an empty payload is accepted: [parseDataUri]
    returns the (lower-cased) mime type and the empty string, for every
    mime type of the allow-list; nothing asks for a minimal size. *)
Theorem C8_empty_payload_accepted (m : string) :
  allowed_mime (Js.toLowerCase m) = true ->
  parseDataUri (VStr (data_uri m EmptyString))
  = Ok (mkParsed (Js.toLowerCase m) EmptyString).
Proof.
  intros Hok.
  apply (parse_allowed_small m EmptyString Hok); [reflexivity|].
  vm_compute. discriminate.
Qed.

Lemma C8_witness :
  parseDataUri (VStr "data:image/png;base64,")
  = Ok (mkParsed "image/png" EmptyString).
Proof.
  apply (C8_empty_payload_accepted "image/png"). reflexivity.
Defined.

(** ** The retry loop of generateOverlayedImage *)

Section RetryLoop.

Import Gemini.

Variables (srv : service) (url : string) (b : request_body) (model : string).

Lemma attempts_made_app (t1 t2 : list event) :
  attempts_made (t1 ++ t2) = (attempts_made t1 + attempts_made t2)%nat.
Proof. unfold attempts_made. now rewrite filter_app, length_app. Qed.

Lemma one_call_per_attempt (attempt : Z) :
  attempts_made (delay_before attempt ++ [Post url b]) = 1%nat.
Proof.
  unfold delay_before. now destruct (attempt >? 1).
Qed.

Lemma delays_app (t1 t2 : list event) :
  delays (t1 ++ t2) = (delays t1 ++ delays t2)%list.
Proof.
  induction t1 as [|[ms|u bd] t1 IH]; simpl; now rewrite ?IH.
Qed.

(** One iteration of the loop. *)
Lemma retry_loop_step (k : nat) (attempt : Z) (lastError : option error) :
  retry_loop srv url b model (S k) attempt lastError =
    let evs := (delay_before attempt ++ [Post url b])%list in
    let next e :=
      let (r, tr) := retry_loop srv url b model k (attempt + 1) (Some e) in
      (r, (evs ++ tr)%list) in
    match try_block model (prompt b) attempt (srv attempt) with
    | Returns g => (Ok g, evs)
    | Continues e => next e
    | Throws e => if attempt =? maxRetries then (Throw e, evs) else next e
    end.
Proof. reflexivity. Qed.

(** The loop never makes more calls than it has iterations. *)
Lemma retry_loop_bounded (remaining : nat) :
  forall attempt lastError,
    (attempts_made (snd (retry_loop srv url b model remaining attempt lastError))
     <= remaining)%nat.
Proof.
  induction remaining as [|k IH]; intros attempt lastError.
  - cbv. lia.
  - rewrite retry_loop_step. cbv zeta.
    assert (Hnext : forall e,
      (attempts_made (snd (let (r, tr) :=
          retry_loop srv url b model k (attempt + 1) (Some e) in
          (r, ((delay_before attempt ++ [Post url b]) ++ tr)%list))) <= S k)%nat).
    { intros e. specialize (IH (attempt + 1) (Some e)).
      destruct (retry_loop srv url b model k (attempt + 1) (Some e)) as [r tr].
      cbn [snd] in *. rewrite attempts_made_app, one_call_per_attempt. lia. }
    destruct (try_block model (prompt b) attempt (srv attempt)) as [g|e|e].
    + cbn [snd]. rewrite one_call_per_attempt. lia.
    + apply Hnext.
    + destruct (attempt =? maxRetries).
      * cbn [snd]. rewrite one_call_per_attempt. lia.
      * apply Hnext.
Qed.

(** A successful run ends in the attempt whose [try] block returned. *)
Lemma retry_loop_Ok (remaining : nat) :
  forall attempt lastError g tr,
    retry_loop srv url b model remaining attempt lastError = (Ok g, tr) ->
    exists k : nat,
      attempts_made tr = S k /\ (k < remaining)%nat /\
      try_block model (prompt b) (attempt + Z.of_nat k)
                (srv (attempt + Z.of_nat k)) = Returns g.
Proof.
  induction remaining as [|n IH]; intros attempt lastError g tr H.
  - simpl in H. discriminate.
  - rewrite retry_loop_step in H. cbv zeta in H.
    assert (Hnext : forall e,
      (let (r, tr') := retry_loop srv url b model n (attempt + 1) (Some e) in
       (r, ((delay_before attempt ++ [Post url b]) ++ tr')%list)) = (Ok g, tr) ->
      exists k : nat,
        attempts_made tr = S k /\ (k < S n)%nat /\
        try_block model (prompt b) (attempt + Z.of_nat k)
                  (srv (attempt + Z.of_nat k)) = Returns g).
    { intros e He.
      destruct (retry_loop srv url b model n (attempt + 1) (Some e))
        as [r tr'] eqn:E.
      injection He as -> <-.
      destruct (IH _ _ _ _ E) as [k [Hn [Hlt Hk]]].
      exists (S k). rewrite attempts_made_app, one_call_per_attempt, Hn.
      repeat split; [lia|].
      replace (attempt + Z.of_nat (S k)) with (attempt + 1 + Z.of_nat k) by lia.
      exact Hk. }
    destruct (try_block model (prompt b) attempt (srv attempt)) as [g'|e|e] eqn:T.
    + injection H as -> <-. exists 0%nat.
      rewrite one_call_per_attempt, Z.add_0_r. repeat split; [lia | exact T].
    + exact (Hnext e H).
    + destruct (attempt =? maxRetries); [discriminate | exact (Hnext e H)].
Qed.

End RetryLoop.

(** ** generateOverlayedImage *)

Section Synthesis.

Import Gemini.

(** With a credential, the call is the loop of three iterations. *)
Lemma generate_with_key (e : env) (srv : service) (o : options) (key : string) :
  GEMINI_API_KEY e = Some key ->
  key <> EmptyString ->
  generateOverlayedImage e srv o
  = retry_loop srv (url_of e key) (body_of o) (model_of e) 3 1 None.
Proof.
  intros Hkey Hne. unfold generateOverlayedImage. rewrite Hkey.
  destruct (String.eqb_spec key EmptyString) as [->|_]; [congruence|].
  reflexivity.
Qed.

Lemma generate_without_key (e : env) (srv : service) (o : options) :
  truthy_str (GEMINI_API_KEY e) = false ->
  generateOverlayedImage e srv o = (Throw MissingApiKey, []).
Proof.
  unfold generateOverlayedImage, truthy_str.
  destruct (GEMINI_API_KEY e) as [key|]; [|reflexivity].
  destruct (String.eqb key EmptyString); [reflexivity | discriminate].
Qed.

(** A successful call ends in an attempt, the last one made, whose [try]
    block returned the result. *)
Lemma generate_Ok (e : env) (srv : service) (o : options)
    (g : generated) (tr : list event) :
  generateOverlayedImage e srv o = (Ok g, tr) ->
  exists (model prompt : string),
    (1 <= attempts_made tr <= 3)%nat /\
    try_block model prompt (Z.of_nat (attempts_made tr))
              (srv (Z.of_nat (attempts_made tr))) = Returns g.
Proof.
  intros H.
  destruct (GEMINI_API_KEY e) as [key|] eqn:Hkey.
  - destruct (String.eqb_spec key EmptyString) as [->|Hne].
    + rewrite generate_without_key in H; [discriminate | now rewrite Hkey].
    + rewrite (generate_with_key _ _ _ _ Hkey Hne) in H.
      apply retry_loop_Ok in H as [k [Hn [Hlt Hk]]].
      eexists _, _. rewrite Hn. split; [lia|].
      replace (Z.of_nat (S k)) with (1 + Z.of_nat k) by lia. exact Hk.
  - rewrite generate_without_key in H; [discriminate | now rewrite Hkey].
Qed.

(** A [try] block returns only what [extract_image] finds in a response
    with a success status. *)
Lemma try_block_Returns (model prompt : string) (attempt : Z)
    (r : response) (g : generated) :
  try_block model prompt attempt (Responded r) = Returns g ->
  ok r = true /\ extract_image (body r) = Some (dataUrl g).
Proof.
  unfold try_block. destruct (ok r); cbn [negb].
  - destruct (extract_image (body r)) as [u|]; [|discriminate].
    intros H. injection H as <-. now split.
  - destruct (isRetryableError (status r) && (attempt <? maxRetries));
      discriminate.
Qed.

(** Any status outside 200..299 ends the [try] block without a result:
    by [continue] or by [throw]. *)
Lemma try_block_failure (model prompt : string) (attempt : Z) (r : response) :
  ok r = false ->
  try_block model prompt attempt (Responded r)
  = if isRetryableError (status r) && (attempt <? maxRetries)
    then Continues (GeminiApiError (status r) (responseText r))
    else Throws (GeminiApiError (status r) (responseText r)).
Proof. intros H. unfold try_block. now rewrite H. Qed.

Lemma try_block_image (model prompt : string) (attempt : Z)
    (r : response) (u : string) :
  ok r = true ->
  extract_image (body r) = Some u ->
  try_block model prompt attempt (Responded r)
  = Returns (mkGenerated u
               (mkUsage model (estimateTokens prompt) (estimateTokens prompt))).
Proof. intros H E. unfold try_block. now rewrite H, E. Qed.

Lemma try_block_no_image (model prompt : string) (attempt : Z) (r : response) :
  ok r = true ->
  extract_image (body r) = None ->
  try_block model prompt attempt (Responded r)
  = Throws (NoImageData (or_default (blockReason (body r)) EmptyString)).
Proof. intros H E. unfold try_block. now rewrite H, E. Qed.

(** The part is taken under the condition of line 108. *)
Lemma inline_image_accepts (p : part) (i : inline) (d : string) :
  selected_inline p = Some i ->
  data i = Some d ->
  d <> EmptyString ->
  (declared_mime i = None \/
   exists m, declared_mime i = Some m /\ Js.includes m "image/" = true) ->
  inline_image p = Some d.
Proof.
  intros Hsel Hd Hne Hmime. unfold inline_image. rewrite Hsel, Hd.
  assert (Ht : truthy_str (Some d) = true).
  { simpl. now destruct (String.eqb_spec d EmptyString). }
  rewrite Ht. cbn [andb].
  destruct Hmime as [-> | [m [-> Hm]]].
  - reflexivity.
  - simpl. destruct (String.eqb m EmptyString); cbn [negb]; [reflexivity|].
    now rewrite Hm.
Qed.

Lemma first_inline_image_at (pre post : list part) (p : part) (d : string) :
  (forall q, In q pre -> inline_image q = None) ->
  inline_image p = Some d ->
  first_inline_image (pre ++ p :: post) = Some d.
Proof.
  intros Hpre Hp. induction pre as [|q pre IH]; simpl.
  - now rewrite Hp.
  - rewrite (Hpre q (or_introl eq_refl)). apply IH.
    intros q' Hq'. apply Hpre. now right.
Qed.

End Synthesis.

(** ** The retry policy *)

Section RetryPolicy.

Import Gemini.

(** X1: whatever the service does, at most three calls are made. *)
Lemma at_most_three_attempts (e : env) (srv : service) (o : options) :
  (attempts_made (snd (generateOverlayedImage e srv o)) <= 3)%nat.
Proof.
  destruct (GEMINI_API_KEY e) as [key|] eqn:Hkey.
  - destruct (String.eqb_spec key EmptyString) as [->|Hne].
    + rewrite generate_without_key; [cbv; lia | now rewrite Hkey].
    + rewrite (generate_with_key _ _ _ _ Hkey Hne). apply retry_loop_bounded.
  - rewrite generate_without_key; [cbv; lia | now rewrite Hkey].
Qed.

(** A first attempt that ends without a result, for whatever reason, is
    followed by a second one: the [catch] swallows every [throw] made
    before the last attempt. *)
Lemma first_failure_is_retried (e : env) (srv : service) (o : options)
    (key : string) :
  GEMINI_API_KEY e = Some key ->
  key <> EmptyString ->
  (forall model prompt g, try_block model prompt 1 (srv 1) <> Returns g) ->
  (2 <= attempts_made (snd (generateOverlayedImage e srv o)))%nat.
Proof.
  intros Hkey Hne Hfail.
  rewrite (generate_with_key _ _ _ _ Hkey Hne).
  rewrite retry_loop_step. cbv zeta.
  set (model := model_of e).
  assert (Hnext : forall err,
    (2 <= attempts_made (snd (let (r, tr) :=
        retry_loop srv (url_of e key) (body_of o) model 2 (1 + 1) (Some err) in
        (r, ((delay_before 1 ++ [Post (url_of e key) (body_of o)]) ++ tr)%list))))%nat).
  { intros err. rewrite retry_loop_step. cbv zeta.
    assert (Hone : forall tr,
      (2 <= attempts_made
              ((delay_before 1 ++ [Post (url_of e key) (body_of o)]) ++
               (delay_before (1 + 1) ++ [Post (url_of e key) (body_of o)]) ++ tr))%nat).
    { intros tr.
      rewrite attempts_made_app, one_call_per_attempt.
      rewrite attempts_made_app, one_call_per_attempt. lia. }
    destruct (try_block model (prompt (body_of o)) (1 + 1) (srv (1 + 1)))
      as [g|e2|e2].
    - cbn [snd]. rewrite attempts_made_app, !one_call_per_attempt. lia.
    - destruct (retry_loop srv (url_of e key) (body_of o) model 1 (1 + 1 + 1) (Some e2))
        as [r tr]. cbn [snd]. apply Hone.
    - change (1 + 1 =? maxRetries) with false. cbv iota.
      destruct (retry_loop srv (url_of e key) (body_of o) model 1 (1 + 1 + 1) (Some e2))
        as [r tr]. cbn [snd]. apply Hone. }
  destruct (try_block model (prompt (body_of o)) 1 (srv 1)) as [g|err|err] eqn:T.
  - exfalso. exact (Hfail _ _ _ T).
  - apply Hnext.
  - change (1 =? maxRetries) with false. cbv iota. apply Hnext.
Qed.

(** C1 (the code departs from the claim): the service answers 400, a status
    that is neither 500, 502 nor 503, and then 200 with an image.  The
    [throw] of line 89 is caught by the [catch] of the same [try], which
    only rethrows on the third attempt: the call sleeps 2000 ms, posts a
    second time and returns the image, where the claim has it fail at
    once. *)
Theorem C1_client_error_status_is_retried :
  generateOverlayedImage Sample.e
    (Sample.script (Sample.answer 400 []) Sample.picture Sample.picture)
    Sample.o
  = (Ok (mkGenerated "data:image/png;base64,QUJD"
           (mkUsage "gemini-2.5-flash-image-preview" 312 312)),
     [Post (url_of Sample.e "k3y") (body_of Sample.o);
      Sleep 2000;
      Post (url_of Sample.e "k3y") (body_of Sample.o)]).
Proof. vm_compute. reflexivity. Qed.

(** C2 (the code departs from the claim): the service answers 200 with no
    part at all, and then 200 with an image.  The no-image error thrown on
    the first answer is caught like any other, a second call is made after
    2000 ms, and the call returns the image of the second answer. *)
Theorem C2_empty_success_is_retried :
  extract_image (Sample.with_parts []) = None /\
  generateOverlayedImage Sample.e
    (Sample.script (Sample.answer 200 []) Sample.picture Sample.picture)
    Sample.o
  = (Ok (mkGenerated "data:image/png;base64,QUJD"
           (mkUsage "gemini-2.5-flash-image-preview" 312 312)),
     [Post (url_of Sample.e "k3y") (body_of Sample.o);
      Sleep 2000;
      Post (url_of Sample.e "k3y") (body_of Sample.o)]).
Proof. split; vm_compute; reflexivity. Qed.

(** Three empty answers: the no-image error comes out of the third
    attempt only. *)
Example empty_three_times :
  let run := generateOverlayedImage Sample.e
               (fun _ => Sample.answer 200 []) Sample.o in
  fst run = Throw (NoImageData EmptyString) /\
  attempts_made (snd run) = 3%nat /\
  delays (snd run) = [2000; 4000].
Proof. vm_compute. repeat split. Qed.

(** C4 as stated fails: on 503, 503, then 200 with an image the call
    succeeds on the third attempt, but the delays are 2000 ms before the
    second attempt and 4000 ms before the third, 6000 ms in all, not 1000 ms
    and 2000 ms. *)
Lemma C4_delays_are_2000_and_4000 :
  let run := generateOverlayedImage Sample.e
               (Sample.script (Sample.answer 503 []) (Sample.answer 503 [])
                              Sample.picture)
               Sample.o in
  attempts_made (snd run) = 3%nat /\
  delays (snd run) = [2000; 4000] /\
  delays (snd run) <> [1000; 2000].
Proof. vm_compute. repeat split. discriminate. Qed.

(** C4 (amended): when the service answers 503 to the first two calls and
    200 with an image to the third, the call succeeds on the third attempt
    with that image, and the delays inserted are
    [baseDelay * 2 ^ (attempt - 1)]: 2000 ms before the second attempt and
    4000 ms before the third. *)
Theorem C4_backoff_503_503_200 (e : env) (srv : service) (o : options)
    (key : string) (r1 r2 r3 : response) (image : string) :
  GEMINI_API_KEY e = Some key ->
  key <> EmptyString ->
  srv 1 = Responded r1 -> status r1 = 503 ->
  srv 2 = Responded r2 -> status r2 = 503 ->
  srv 3 = Responded r3 -> status r3 = 200 ->
  extract_image (body r3) = Some image ->
  exists u tr,
    generateOverlayedImage e srv o = (Ok (mkGenerated image u), tr) /\
    attempts_made tr = 3%nat /\
    delays tr = [2000; 4000].
Proof.
  intros Hkey Hne H1 S1 H2 S2 H3 S3 Himg.
  assert (F1 : ok r1 = false) by (unfold ok; now rewrite S1).
  assert (F2 : ok r2 = false) by (unfold ok; now rewrite S2).
  assert (F3 : ok r3 = true) by (unfold ok; now rewrite S3).
  rewrite (generate_with_key _ _ _ _ Hkey Hne).
  rewrite retry_loop_step. cbv zeta.
  rewrite H1, (try_block_failure _ _ _ _ F1), S1.
  change (isRetryableError 503 && (1 <? maxRetries)) with true. cbv iota.
  rewrite retry_loop_step. cbv zeta. change (1 + 1) with 2.
  rewrite H2, (try_block_failure _ _ _ _ F2), S2.
  change (isRetryableError 503 && (2 <? maxRetries)) with true. cbv iota.
  rewrite retry_loop_step. cbv zeta. change (2 + 1) with 3.
  rewrite H3, (try_block_image _ _ _ _ _ F3 Himg).
  eexists _, _. split; [reflexivity|]. split; reflexivity.
Qed.

Lemma C4_witness :
  exists u tr,
    generateOverlayedImage Sample.e
      (Sample.script (Sample.answer 503 []) (Sample.answer 503 []) Sample.picture)
      Sample.o
    = (Ok (mkGenerated "data:image/png;base64,QUJD" u), tr) /\
    attempts_made tr = 3%nat /\
    delays tr = [2000; 4000].
Proof.
  apply (C4_backoff_503_503_200 Sample.e _ Sample.o "k3y"
           (mkResponse 503 "{}" (Sample.with_parts []))
           (mkResponse 503 "{}" (Sample.with_parts []))
           (mkResponse 200 "{}"
              (Sample.with_parts [Sample.image_part (Some "image/jpeg") "QUJD"])));
    try reflexivity.
  discriminate.
Defined.

End RetryPolicy.

(** ** The image taken from the response *)

Section InlineImage.

Import Gemini.

(** C9: when the call succeeds on a response whose first accepted part
    carries the data [d], the returned [dataUrl] is
    ['data:image/png;base64,' ++ d], whatever mime type the part declares;
    and a part is accepted as soon as its inline object ([inline_data], or
    [inlineData] when that is missing) carries non-empty data and its
    declared mime type ([mime_type], else [mimeType]) is absent or contains
    ['image/']. *)
Theorem C9_inline_image_gets_png_prefix (e : env) (srv : service)
    (o : options) (g : generated) (tr : list event) (r : response)
    (pre post : list part) (p : part) (i : inline) (d : string) :
  generateOverlayedImage e srv o = (Ok g, tr) ->
  srv (Z.of_nat (attempts_made tr)) = Responded r ->
  partsResp (body r) = (pre ++ p :: post)%list ->
  (forall q, In q pre -> inline_image q = None) ->
  selected_inline p = Some i ->
  data i = Some d ->
  d <> EmptyString ->
  (declared_mime i = None \/
   exists m, declared_mime i = Some m /\ Js.includes m "image/" = true) ->
  dataUrl g = "data:image/png;base64," ++ d.
Proof.
  intros Hrun Hsrv Hparts Hpre Hsel Hd Hne Hmime.
  destruct (generate_Ok _ _ _ _ _ Hrun) as [model [prompt [_ Hret]]].
  rewrite Hsrv in Hret.
  apply try_block_Returns in Hret as [_ Himg].
  unfold extract_image in Himg.
  rewrite Hparts in Himg.
  rewrite (first_inline_image_at pre post p d Hpre
             (inline_image_accepts p i d Hsel Hd Hne Hmime)) in Himg.
  now injection Himg as <-.
Qed.

Lemma C9_witness :
  dataUrl (mkGenerated "data:image/png;base64,QUJD"
             (mkUsage "gemini-2.5-flash-image-preview" 312 312))
  = "data:image/png;base64," ++ "QUJD".
Proof.
  apply (C9_inline_image_gets_png_prefix Sample.e (fun _ => Sample.picture)
           Sample.o _
           [Post (url_of Sample.e "k3y") (body_of Sample.o)]
           (mkResponse 200 "{}"
              (Sample.with_parts [Sample.image_part (Some "image/jpeg") "QUJD"]))
           [] [] (Sample.image_part (Some "image/jpeg") "QUJD")
           (mkInline (Some "QUJD") None (Some "image/jpeg")) "QUJD").
  - vm_compute. reflexivity.
  - reflexivity.
  - reflexivity.
  - intros q [].
  - reflexivity.
  - reflexivity.
  - discriminate.
  - right. exists "image/jpeg". split; reflexivity.
Defined.

(** The declared mime type plays no part in the result: a part declared
    [image/webp], one declared nothing, both come back as PNG data URLs;
    a part declared [text/plain] is passed over. *)
Example declared_mime_is_dropped :
  extract_image (Sample.with_parts [Sample.image_part (Some "image/webp") "QUJD"])
  = Some "data:image/png;base64,QUJD" /\
  extract_image (Sample.with_parts [Sample.image_part None "QUJD"])
  = Some "data:image/png;base64,QUJD" /\
  extract_image (Sample.with_parts [Sample.image_part (Some "text/plain") "QUJD"])
  = None.
Proof. repeat split. Qed.

(** The text fall-back: the literal is cut out of the text and cleaned. *)
Example text_fallback :
  extract_image (Sample.with_parts
    [mkPart None None (Some "Here it is: `data:image/png;base64,QUJD`) ")])
  = Some "data:image/png;base64,QUJD".
Proof. reflexivity. Qed.

End InlineImage.

(** ** validateExtension *)

Section Authorisation.

(** X2: with the variable unset the allow-list is empty and no caller gets
    through; the handlers answer 403 and do nothing else. *)
Lemma unset_allow_list_rejects_all (e : env) (w : world) (req : request) :
  CHROME_EXTENSION_IDS e = None ->
  validateExtension e req = inl forbidden /\
  Server.tryon e w req = (forbidden, []) /\
  ServerSimple.tryon e w req = (forbidden, []).
Proof.
  intros H.
  assert (Hv : validateExtension e req = inl forbidden).
  { unfold validateExtension, allowedIds. rewrite H.
    now destruct (caller_id req). }
  unfold Server.tryon, ServerSimple.tryon. now rewrite Hv.
Qed.

(** With the variable set to the empty string the allow-list holds one
    entry, the empty string: every caller is rejected but the one whose
    identity is the empty string. *)
Lemma empty_allow_list (e : env) (req : request) :
  CHROME_EXTENSION_IDS e = Some EmptyString ->
  validateExtension e req
  = match caller_id req with
    | VStr EmptyString => inr (VStr EmptyString)
    | _ => inl forbidden
    end.
Proof.
  intros H. unfold validateExtension, allowedIds. rewrite H.
  destruct (caller_id req) as [| |b|n|s|l|f]; try reflexivity.
  now destruct s.
Qed.

(** C10 (the code departs from the claim): with [CHROME_EXTENSION_IDS] set
    to the empty string, [split] yields the list of one empty string, and
    a request whose [x-mm-extension-id] header is empty (no [extensionId] in
    the body) is let through: the handler goes on to the synthesis and
    answers 200 where the claim has 403. *)
Theorem C10_empty_allow_list_admits_empty_id :
  let e := mkEnv (Some "k3y") None (Some EmptyString) None in
  let req := mkRequest (Some EmptyString) 100 VUndef VUndef
               (VStr "data:image/jpeg;base64,AAAA")
               (VArr [VStr "data:image/png;base64,BBBB"])
               VUndef None VUndef VUndef in
  allowedIds e = [EmptyString] /\
  validateExtension e req = inr (VStr EmptyString) /\
  fst (Server.tryon e Sample.w req)
  = mkHttp 200 (TryOnBody "data:image/png;base64,QUJD"
                  (Gemini.mkUsage "gemini-2.5-flash-image-preview" 312 312)).
Proof. vm_compute. repeat split. Qed.

End Authorisation.

(** ** Overlay resolution *)

Section Overlays.

Lemma filter_Boolean_app {A : Type} (l1 l2 : list (option A)) :
  filter_Boolean (l1 ++ l2) = (filter_Boolean l1 ++ filter_Boolean l2)%list.
Proof.
  induction l1 as [|[a|] l1 IH]; simpl; now rewrite ?IH.
Qed.

Lemma In_firstn {A : Type} (n : nat) (l : list A) (y : A) :
  In y (firstn n l) -> In y l.
Proof.
  revert l. induction n as [|n IH]; intros [|a l]; simpl; try tauto.
  intros [->|H]; [now left | right; now apply IH].
Qed.

Lemma decoded_app (l1 l2 : list value) :
  decoded (l1 ++ l2) = (decoded l1 ++ decoded l2)%list.
Proof. unfold decoded. now rewrite map_app, filter_Boolean_app. Qed.

Lemma decoded_all_fail (entries : list value) :
  (forall y, In y entries -> exists err, parseDataUri y = Throw err) ->
  decoded entries = [].
Proof.
  induction entries as [|x r IH]; intros H; [reflexivity|].
  unfold decoded in *. simpl. unfold Server.decode_entry at 1.
  destruct (H x (or_introl eq_refl)) as [err ->].
  apply IH. intros y Hy. apply H. now right.
Qed.

Lemma resolve_from_data (w : world) (req : request) (x : value) (rest : list value) :
  b_overlayData req = VArr (x :: rest) ->
  Server.resolve_overlays w req = (decoded (firstn 3 (x :: rest)), []).
Proof. intros H. unfold Server.resolve_overlays. now rewrite H. Qed.

Lemma no_fetch_in_synthesis (tr : list Gemini.event) :
  filter is_overlay_fetch (map Synthesis tr) = [].
Proof. induction tr as [|ev tr IH]; [reflexivity | exact IH]. Qed.

Lemma no_fetch_in_studio (w : world) (req : request) :
  filter is_overlay_fetch (snd (Server.actualUserImage w req)) = [].
Proof.
  unfold Server.actualUserImage.
  now destruct (truthy (b_useStudioMode req) && truthy (b_studioId req)).
Qed.

Lemma try_block_no_fetch (e : env) (w : world) (req : request) (id : value)
    (x : value) (rest : list value) :
  b_overlayData req = VArr (x :: rest) ->
  filter is_overlay_fetch (snd (Server.try_block e w req id)) = [].
Proof.
  intros Hdata. unfold Server.try_block.
  destruct (requestSizeEstimate req >? MAX_REQUEST_SIZE); [reflexivity|].
  pose proof (no_fetch_in_studio w req) as Hs.
  destruct (Server.actualUserImage w req) as [image ev1]. cbn [snd] in Hs.
  rewrite (resolve_from_data w req x rest Hdata).
  destruct image as [| |bb|n|s|l|f]; cbn [snd]; try exact Hs.
  destruct (negb (Js.startsWith s "data:")); cbn [snd]; [exact Hs|].
  destruct (parseDataUri (VStr s)) as [up|err]; cbn [snd]; [|exact Hs].
  destruct (decoded (firstn 3 (x :: rest))) as [|part parts]; cbn [snd].
  - now rewrite filter_app, Hs.
  - unfold lift.
    destruct (Gemini.generateOverlayedImage e (gemini w) _) as [r ev3].
    cbn [fst snd]. rewrite !filter_app, Hs, no_fetch_in_synthesis. reflexivity.
Qed.

Lemma tryon_no_fetch (e : env) (w : world) (req : request)
    (x : value) (rest : list value) :
  b_overlayData req = VArr (x :: rest) ->
  filter is_overlay_fetch (snd (Server.tryon e w req)) = [].
Proof.
  intros Hdata. unfold Server.tryon.
  destruct (validateExtension e req) as [resp|id]; [reflexivity|].
  pose proof (try_block_no_fetch e w req id x rest Hdata) as H.
  destruct (Server.try_block e w req id) as [r evs]. exact H.
Qed.

Lemma tryon_ignores_urls (e : env) (w : world) (req : request)
    (x : value) (rest : list value) (urls : value)
    (f : value -> overlay_outcome) :
  b_overlayData req = VArr (x :: rest) ->
  Server.tryon e (with_overlay_fetch w f) (with_overlayUrls req urls)
  = Server.tryon e w req.
Proof.
  intros Hdata.
  assert (Hv : validateExtension e (with_overlayUrls req urls)
               = validateExtension e req) by reflexivity.
  assert (Hr : forall w',
    Server.resolve_overlays w' (with_overlayUrls req urls)
    = Server.resolve_overlays w req).
  { intros w'. rewrite (resolve_from_data w req x rest Hdata).
    now apply resolve_from_data. }
  unfold Server.tryon. rewrite Hv.
  destruct (validateExtension e req) as [resp|id]; [reflexivity|].
  unfold Server.try_block. rewrite Hr. reflexivity.
Qed.

Lemma tryon_all_fail (e : env) (w : world) (req : request)
    (x : value) (rest : list value) (id : value) (s : string) (up : parsed) :
  b_overlayData req = VArr (x :: rest) ->
  (forall y, In y (x :: rest) -> exists err, parseDataUri y = Throw err) ->
  validateExtension e req = inr id ->
  requestSizeEstimate req <= MAX_REQUEST_SIZE ->
  fst (Server.actualUserImage w req) = VStr s ->
  Js.startsWith s "data:" = true ->
  parseDataUri (VStr s) = Ok up ->
  fst (Server.tryon e w req) = no_overlay_images.
Proof.
  intros Hdata Hfail Hid Hsize Himg Hstart Hparse.
  unfold Server.tryon. rewrite Hid. unfold Server.try_block.
  destruct (requestSizeEstimate req >? MAX_REQUEST_SIZE) eqn:E.
  { apply Z.gtb_lt in E. lia. }
  rewrite (resolve_from_data w req x rest Hdata).
  destruct (Server.actualUserImage w req) as [image ev1]. cbn [fst] in Himg.
  subst image. rewrite Hstart, Hparse. cbn [negb].
  rewrite decoded_all_fail; [reflexivity|].
  intros y Hy. apply Hfail. exact (In_firstn 3 _ y Hy).
Qed.

End Overlays.

Section OverlayClaims.

(** C6: when [overlayData] is a non-empty array, the handler performs no
    overlay fetch, its response and its effects do not depend on
    [overlayUrls] nor on what the fetches would answer, and when every entry
    fails to decode a request that got as far as the overlays is answered
    422 NO_OVERLAY_IMAGES. *)
Theorem C6_overlayData_shadows_overlayUrls (e : env) (w : world)
    (req : request) (x : value) (rest : list value) :
  b_overlayData req = VArr (x :: rest) ->
  filter is_overlay_fetch (snd (Server.tryon e w req)) = [] /\
  (forall urls f,
     Server.tryon e (with_overlay_fetch w f) (with_overlayUrls req urls)
     = Server.tryon e w req) /\
  ((forall y, In y (x :: rest) -> exists err, parseDataUri y = Throw err) ->
   forall id s up,
     validateExtension e req = inr id ->
     requestSizeEstimate req <= MAX_REQUEST_SIZE ->
     fst (Server.actualUserImage w req) = VStr s ->
     Js.startsWith s "data:" = true ->
     parseDataUri (VStr s) = Ok up ->
     fst (Server.tryon e w req) = no_overlay_images).
Proof.
  intros Hdata. split; [|split].
  - exact (tryon_no_fetch e w req x rest Hdata).
  - intros urls f. exact (tryon_ignores_urls e w req x rest urls f Hdata).
  - intros Hfail id s up. exact (tryon_all_fail e w req x rest id s up Hdata Hfail).
Qed.

Lemma C6_witness :
  let w := with_overlay_fetch Sample.w
             (fun _ => OverlayResponse 200 (Some "image/png") "BBBB") in
  let req := mkRequest None 100 (VStr "gphnamdjcdhpmfeongphlidjlahkjafk") VUndef
               (VStr "data:image/jpeg;base64,AAAA")
               (VArr [VStr "not a data URI"; VNull])
               (VArr [VStr "https://shop.example/shirt.png"])
               None VUndef VUndef in
  filter is_overlay_fetch (snd (Server.tryon Sample.e w req)) = [] /\
  fst (Server.tryon Sample.e w req) = no_overlay_images.
Proof.
  cbv zeta.
  destruct (C6_overlayData_shadows_overlayUrls Sample.e
              (with_overlay_fetch Sample.w
                 (fun _ => OverlayResponse 200 (Some "image/png") "BBBB"))
              (mkRequest None 100 (VStr "gphnamdjcdhpmfeongphlidjlahkjafk") VUndef
                 (VStr "data:image/jpeg;base64,AAAA")
                 (VArr [VStr "not a data URI"; VNull])
                 (VArr [VStr "https://shop.example/shirt.png"])
                 None VUndef VUndef)
              (VStr "not a data URI") [VNull] eq_refl) as [Hnone [_ Hfail]].
  split; [exact Hnone|].
  apply (Hfail) with (id := VStr "gphnamdjcdhpmfeongphlidjlahkjafk")
                     (s := "data:image/jpeg;base64,AAAA")
                     (up := mkParsed "image/jpeg" "AAAA").
  - intros y [<-|[<-|[]]]; eexists; reflexivity.
  - reflexivity.
  - vm_compute. discriminate.
  - reflexivity.
  - reflexivity.
  - reflexivity.
Defined.

(** Without [overlayData] the same request does fetch the URL. *)
Example urls_are_the_fallback :
  let w := with_overlay_fetch Sample.w
             (fun _ => OverlayResponse 200 (Some "image/png; charset=binary") "BBBB") in
  let req := mkRequest None 100 (VStr "gphnamdjcdhpmfeongphlidjlahkjafk") VUndef
               (VStr "data:image/jpeg;base64,AAAA")
               (VArr [])
               (VArr [VStr "https://shop.example/shirt.png"])
               None VUndef VUndef in
  filter is_overlay_fetch (snd (Server.tryon Sample.e w req))
  = [FetchOverlay (VStr "https://shop.example/shirt.png")] /\
  http_status (fst (Server.tryon Sample.e w req)) = 200.
Proof. vm_compute. split; reflexivity. Qed.

(** X3: in the server with studio mode, an entry among the first three is
    dropped when it does not decode and kept otherwise; the entries around
    it are decoded on their own and keep their order. *)
Lemma overlays_drop_only_failures (entries pre post : list value) (x : value) :
  firstn 3 entries = (pre ++ x :: post)%list ->
  Server.overlays_from_data entries
  = (decoded pre
     ++ match parseDataUri x with
        | Ok p => [to_part p]
        | Throw _ => []
        end
     ++ decoded post)%list.
Proof.
  intros H. unfold Server.overlays_from_data.
  change (filter_Boolean (map Server.decode_entry (firstn 3 entries)))
    with (decoded (firstn 3 entries)).
  rewrite H, decoded_app. f_equal.
  change (x :: post) with ([x] ++ post)%list. rewrite decoded_app. f_equal.
  unfold decoded, Server.decode_entry. simpl.
  now destruct (parseDataUri x).
Qed.

(** When every one of the first three entries decodes, the parts are the
    decoded entries, one for one, duplicates included. *)
Lemma overlays_all_decode (entries : list value) (ps : list parsed) :
  map parseDataUri (firstn 3 entries) = map Ok ps ->
  Server.overlays_from_data entries = map to_part ps.
Proof.
  unfold Server.overlays_from_data.
  generalize (firstn 3 entries) as l. intros l. revert ps.
  induction l as [|x l IH]; intros [|p ps] H; simpl in H; try discriminate.
  - reflexivity.
  - injection H as Hx Hl. simpl. unfold Server.decode_entry at 1.
    rewrite Hx. simpl. f_equal. now apply IH.
Qed.

Lemma filter_Boolean_length {A : Type} (l : list (option A)) :
  (List.length (filter_Boolean l) <= List.length l)%nat.
Proof. induction l as [|[a|] l IH]; simpl; lia. Qed.

(** X4: never more than three overlay images, from either list. *)
Lemma at_most_three_overlays (w : world) (req : request) :
  (List.length (fst (Server.resolve_overlays w req)) <= 3)%nat.
Proof.
  assert (H3 : forall (A : Type) (l : list A), (List.length (firstn 3 l) <= 3)%nat).
  { intros A l. rewrite length_firstn. lia. }
  unfold Server.resolve_overlays.
  destruct (is_nonempty_array (b_overlayData req)) as [l|].
  - cbn [fst]. unfold Server.overlays_from_data.
    etransitivity; [apply filter_Boolean_length|].
    rewrite length_map. apply H3.
  - destruct (is_nonempty_array (b_overlayUrls req)) as [l|]; [|simpl; lia].
    cbn [fst Server.overlays_from_urls].
    etransitivity; [apply filter_Boolean_length|].
    rewrite length_map. apply H3.
Qed.

(** C7 (the code departs from the claim in the server without studio
    mode): there [parseDataUri] runs inside [map] with no [try] of its own,
    so the first entry that does not decode throws to the [catch] of the
    handler.  The request below, one bad entry followed by a good one, is
    answered 400 INVALID_IMAGE_FORMAT and no synthesis is attempted; the
    server with studio mode drops the bad entry and answers 200. *)
Theorem C7_simple_server_fails_the_batch :
  let req := mkRequest None 100 (VStr "gphnamdjcdhpmfeongphlidjlahkjafk") VUndef
               (VStr "data:image/jpeg;base64,AAAA")
               (VArr [VStr "not a data URI"; VStr "data:image/png;base64,BBBB"])
               VUndef None VUndef VUndef in
  ServerSimple.tryon Sample.e Sample.w req
  = (mkHttp 400 (ErrorBody "Invalid data URI format" "INVALID_IMAGE_FORMAT" None), [])
  /\
  Server.overlays_from_data [VStr "not a data URI"; VStr "data:image/png;base64,BBBB"]
  = [Sample.shirt]
  /\
  http_status (fst (Server.tryon Sample.e Sample.w req)) = 200.
Proof. vm_compute. repeat split. Qed.

End OverlayClaims.

(** ** Worked examples *)

Section Examples.

Example parse_png :
  parseDataUri (VStr "data:image/png;base64,iVBORw0KGgo=")
  = Ok (mkParsed "image/png" "iVBORw0KGgo=").
Proof. reflexivity. Qed.

Example parse_gif :
  parseDataUri (VStr "data:image/gif;base64,AAAA")
  = Throw (UnsupportedMime "image/gif").
Proof. reflexivity. Qed.

(** A parameter between the mime type and [;base64,] does not fit the
    pattern. *)
Example parse_charset :
  parseDataUri (VStr "data:image/png;charset=utf-8;base64,AAAA")
  = Throw InvalidDataUri.
Proof. reflexivity. Qed.

(** A payload broken over two lines does not fit it either. *)
Example parse_two_lines :
  parseDataUri (VStr (data_uri "image/png"
                        (String "A" (String (ascii_of_nat 10) "B"))))
  = Throw InvalidDataUri.
Proof. reflexivity. Qed.

Example parse_not_a_string :
  parseDataUri (VNum 5) = Throw InvalidDataUri /\
  parseDataUri VNull = Throw InvalidDataUri /\
  parseDataUri (VStr EmptyString) = Throw InvalidDataUri.
Proof. repeat split. Qed.

Example split_ids :
  Js.split_comma "abc,def" = ["abc"; "def"] /\
  Js.split_comma "abc," = ["abc"; EmptyString] /\
  Js.split_comma EmptyString = [EmptyString].
Proof. repeat split. Qed.

(** Scenario 1 of the specification: one overlay, an inline image on the
    first attempt. *)
Example scenario_1 :
  Server.tryon Sample.e Sample.w Sample.req
  = (mkHttp 200 (TryOnBody "data:image/png;base64,QUJD"
                   (Gemini.mkUsage "gemini-2.5-flash-image-preview" 312 312)),
     [Synthesis (Gemini.Post (Gemini.url_of Sample.e "k3y")
                             (Gemini.body_of Sample.o))]).
Proof. vm_compute. reflexivity. Qed.

(** Scenario 3: a user image that is no data URI, and no effect at all. *)
Example scenario_3 :
  Server.tryon Sample.e Sample.w
    (mkRequest None 100 (VStr "gphnamdjcdhpmfeongphlidjlahkjafk") VUndef
       (VStr "https://example.com/me.jpg")
       (VArr [VStr "data:image/png;base64,BBBB"]) VUndef None VUndef VUndef)
  = (mkHttp 400 (ErrorBody "userImage must be a data URI" "INVALID_USER_IMAGE" None),
     []).
Proof. reflexivity. Qed.

(** Scenario 5: an unknown caller. *)
Example scenario_5 :
  Server.tryon Sample.e Sample.w
    (mkRequest (Some "someone-else") 100 VUndef VUndef
       (VStr "data:image/jpeg;base64,AAAA")
       (VArr [VStr "data:image/png;base64,BBBB"]) VUndef None VUndef VUndef)
  = (forbidden, []).
Proof. reflexivity. Qed.

End Examples.

(** ** Witnesses of the general lemmas *)

Lemma unsupported_whatever_the_size_witness :
  parseDataUri (VStr (data_uri "image/svg+xml" big_payload))
  = Throw (UnsupportedMime "image/svg+xml").
Proof.
  apply (unsupported_whatever_the_size "image/svg+xml" big_payload).
  - discriminate.
  - reflexivity.
  - exact big_payload_one_line.
  - reflexivity.
Defined.

Lemma unset_allow_list_witness :
  Server.tryon (mkEnv (Some "k3y") None None None) Sample.w Sample.req
  = (forbidden, []).
Proof.
  apply (unset_allow_list_rejects_all (mkEnv (Some "k3y") None None None)
           Sample.w Sample.req).
  reflexivity.
Defined.

Lemma overlays_drop_only_failures_witness :
  Server.overlays_from_data
    [VStr "data:image/png;base64,BBBB"; VStr "not a data URI";
     VStr "data:image/png;base64,BBBB"; VStr "data:image/webp;base64,CCCC"]
  = [Sample.shirt; Sample.shirt].
Proof.
  apply (overlays_drop_only_failures
           [VStr "data:image/png;base64,BBBB"; VStr "not a data URI";
            VStr "data:image/png;base64,BBBB"; VStr "data:image/webp;base64,CCCC"]
           [VStr "data:image/png;base64,BBBB"]
           [VStr "data:image/png;base64,BBBB"]
           (VStr "not a data URI")).
  reflexivity.
Defined.

(** * Further properties *)

(** ** What parseDataUri accepts *)

Section ParserSoundness.

Lemma after_inv (p s r : string) : Js.after p s = Some r -> s = p ++ r.
Proof.
  revert s. induction p as [|a p IH]; intros [|b s]; simpl; intros H;
    try discriminate; try (now injection H as <-).
  destruct (Ascii.eqb_spec a b) as [->|]; [|discriminate].
  now rewrite (IH s H).
Qed.

Lemma span_mime_inv (s m rest : string) :
  span_mime s = (m, rest) ->
  s = m ++ rest /\ has_semicolon m = false.
Proof.
  revert m rest. induction s as [|c t IH]; simpl; intros m rest H.
  - injection H as <- <-. now split.
  - destruct (Ascii.eqb c ";"%char) eqn:E.
    + injection H as <- <-. now split.
    + destruct (span_mime t) as [m' r'] eqn:St. injection H as <- <-.
      destruct (IH m' r' eq_refl) as [-> Hm]. simpl. now rewrite E.
Qed.

Lemma match_data_uri_inv (s m payload : string) :
  match_data_uri s = Some (m, payload) ->
  s = data_uri m payload /\ m <> EmptyString /\
  has_semicolon m = false /\ Js.has_line_terminator payload = false.
Proof.
  unfold match_data_uri. intros H.
  destruct (Js.after "data:" s) as [r|] eqn:A; [|discriminate].
  destruct (span_mime r) as [m' rest] eqn:Sp.
  destruct m' as [|c m']; [discriminate|].
  destruct (Js.after ";base64," rest) as [pl|] eqn:B; [|discriminate].
  destruct (Js.has_line_terminator pl) eqn:L; [discriminate|].
  injection H as <- <-.
  apply after_inv in A, B. apply span_mime_inv in Sp as [Hr Hsemi].
  subst. repeat split; [discriminate | exact Hsemi | exact L].
Qed.

(** What a successful parse tells about its input. *)
Lemma parseDataUri_Ok_inv (v : value) (p : parsed) :
  parseDataUri v = Ok p ->
  exists m,
    v = VStr (data_uri m (p_base64 p)) /\
    p_mimeType p = Js.toLowerCase m /\
    allowed_mime (p_mimeType p) = true /\
    Js.has_line_terminator (p_base64 p) = false /\
    approxBytes (p_base64 p) <= MAX_DATAURI_BYTES.
Proof.
  unfold parseDataUri. destruct v as [| |b|n|s|l|f]; try discriminate.
  destruct (negb (truthy (VStr s))); [discriminate|].
  destruct (match_data_uri s) as [[m payload]|] eqn:M; [|discriminate].
  destruct (allowed_mime (Js.toLowerCase m)) eqn:A; cbn [negb]; [|discriminate].
  destruct (approxBytes payload >? MAX_DATAURI_BYTES) eqn:Sz; [discriminate|].
  intros H. injection H as <-. cbn [p_base64 p_mimeType].
  apply match_data_uri_inv in M as [-> [_ [_ L]]].
  exists m. repeat split; try assumption.
  destruct (Z.gtb_spec (approxBytes payload) MAX_DATAURI_BYTES); [discriminate | lia].
Qed.

(** X6: [parseDataUri] succeeds only on a string [data:m;base64,payload]
    whose mime type, lower-cased, is one of the five of the allow-list and
    whose payload is on one line and at most 11184811 units long; the result
    is that lower-cased mime type and that payload.  Nothing else gets
    through. *)
Theorem parseDataUri_sound (v : value) (p : parsed) :
  parseDataUri v = Ok p ->
  exists m,
    v = VStr (data_uri m (p_base64 p)) /\
    p_mimeType p = Js.toLowerCase m /\
    In (p_mimeType p) ALLOWED_MIME /\
    Js.has_line_terminator (p_base64 p) = false /\
    Js.length (p_base64 p) <= 11184811.
Proof.
  intros H. destruct (parseDataUri_Ok_inv v p H) as [m [Hv [Hm [Ha [Hl Hs]]]]].
  exists m. repeat split; try assumption.
  - now apply allowed_mime_In.
  - unfold approxBytes, MAX_DATAURI_BYTES in Hs.
    pose proof (Z.mul_div_le (Js.length (p_base64 p) * 3) 4 ltac:(lia)) as H1.
    pose proof (Z.mod_pos_bound (Js.length (p_base64 p) * 3) 4 ltac:(lia)) as H2.
    pose proof (Z.div_mod (Js.length (p_base64 p) * 3) 4 ltac:(lia)) as H3.
    lia.
Qed.

Lemma parseDataUri_sound_witness :
  exists m,
    VStr "data:Image/Jpeg;base64,AAAA" = VStr (data_uri m "AAAA") /\
    "image/jpeg" = Js.toLowerCase m /\
    In "image/jpeg" ALLOWED_MIME /\
    Js.has_line_terminator "AAAA" = false /\
    Js.length "AAAA" <= 11184811.
Proof.
  apply (parseDataUri_sound (VStr "data:Image/Jpeg;base64,AAAA")
           (mkParsed "image/jpeg" "AAAA")).
  reflexivity.
Defined.

(** X7: writing a parsed image back as a data URI and parsing it again
    gives the same result: the output of [parseDataUri] is a fixed point of
    write-then-parse. *)
Theorem parseDataUri_reparse (v : value) (p : parsed) :
  parseDataUri v = Ok p ->
  parseDataUri (VStr (data_uri (p_mimeType p) (p_base64 p))) = Ok p.
Proof.
  intros H. destruct (parseDataUri_Ok_inv v p H) as [m [_ [_ [Ha [Hl Hs]]]]].
  pose proof (allowed_is_lower _ Ha) as Hlow.
  rewrite (parse_allowed_small (p_mimeType p) (p_base64 p)).
  - rewrite Hlow. now destruct p.
  - now rewrite Hlow.
  - exact Hl.
  - exact Hs.
Qed.

Lemma parseDataUri_reparse_witness :
  parseDataUri (VStr (data_uri "image/webp" "UklGRg=="))
  = Ok (mkParsed "image/webp" "UklGRg==").
Proof.
  apply (parseDataUri_reparse (VStr "data:IMAGE/WEBP;base64,UklGRg==")
           (mkParsed "image/webp" "UklGRg==")).
  reflexivity.
Defined.

End ParserSoundness.

(** ** The configured allow-list *)

Section AllowList.

Lemma append_empty_r (s : string) : s ++ EmptyString = s.
Proof. induction s as [|c t IH]; simpl; now rewrite ?IH. Qed.

Lemma split_comma_piece (x s : string) :
  has_comma x = false ->
  Js.split_comma (x ++ String ","%char s) = x :: Js.split_comma s.
Proof.
  induction x as [|c x IH]; simpl; intros H.
  - reflexivity.
  - apply orb_false_iff in H as [Hc Hx]. now rewrite Hc, (IH Hx).
Qed.

Lemma split_comma_single (x : string) :
  has_comma x = false -> Js.split_comma x = [x].
Proof.
  induction x as [|c x IH]; simpl; intros H.
  - reflexivity.
  - apply orb_false_iff in H as [Hc Hx]. now rewrite Hc, (IH Hx).
Qed.

(** Splitting the joined list gives the list back. *)
Lemma split_join (ids : list string) :
  ids <> [] ->
  (forall x, In x ids -> has_comma x = false) ->
  Js.split_comma (join_comma ids) = ids.
Proof.
  induction ids as [|x r IH]; intros Hne Hno; [congruence|].
  destruct r as [|y r].
  - simpl. apply split_comma_single. apply Hno. now left.
  - change (join_comma (x :: y :: r))
      with (x ++ String ","%char (join_comma (y :: r))).
    rewrite split_comma_piece by (apply Hno; now left).
    f_equal. apply IH; [discriminate|].
    intros z Hz. apply Hno. now right.
Qed.

Lemma ids_include_In (ids : list string) (v : value) :
  ids_include ids v = true <-> exists id, In id ids /\ v = VStr id.
Proof.
  split.
  - destruct v as [| |b|n|s|l|f]; simpl; try discriminate.
    intros H. apply existsb_exists in H as [x [Hin Heq]].
    apply String.eqb_eq in Heq. subst. now exists x.
  - intros [id [Hin ->]]. simpl. apply existsb_exists.
    exists id. split; [assumption | apply String.eqb_refl].
Qed.

(** X8: when [CHROME_EXTENSION_IDS] lists identifiers separated by commas
    (none of them containing a comma), a request is let through exactly when
    its caller identity, the body's [extensionId] or else the header, is a
    string equal to one of them, and [req.extensionId] is then that
    identifier. *)
Theorem configured_ids_are_the_admitted_ones (e : env) (req : request)
    (ids : list string) (v : value) :
  CHROME_EXTENSION_IDS e = Some (join_comma ids) ->
  ids <> [] ->
  (forall x, In x ids -> has_comma x = false) ->
  validateExtension e req = inr v <->
  exists id, In id ids /\ caller_id req = VStr id /\ v = VStr id.
Proof.
  intros Hcfg Hne Hno.
  assert (Hids : allowedIds e = ids).
  { unfold allowedIds. rewrite Hcfg. now apply split_join. }
  unfold validateExtension. rewrite Hids.
  destruct (ids_include ids (caller_id req)) eqn:I; cbn [negb].
  - apply ids_include_In in I as [id [Hin Hc]]. split.
    + intros H. injection H as <-. now exists id.
    + intros [id' [_ [Hc' ->]]]. now rewrite Hc'.
  - split; [discriminate|].
    intros [id [Hin [Hc _]]].
    assert (ids_include ids (caller_id req) = true)
      by (apply ids_include_In; now exists id).
    congruence.
Qed.

Lemma configured_ids_witness :
  validateExtension
    (mkEnv (Some "k3y") None (Some "abcdef,ghijkl") None)
    (mkRequest (Some "ghijkl") 100 VUndef VUndef VUndef VUndef VUndef None
       VUndef VUndef)
  = inr (VStr "ghijkl").
Proof.
  apply (configured_ids_are_the_admitted_ones
           (mkEnv (Some "k3y") None (Some "abcdef,ghijkl") None)
           (mkRequest (Some "ghijkl") 100 VUndef VUndef VUndef VUndef VUndef None
              VUndef VUndef)
           ["abcdef"; "ghijkl"] (VStr "ghijkl")).
  - reflexivity.
  - discriminate.
  - intros x [<-|[<-|[]]]; reflexivity.
  - exists "ghijkl". repeat split. right. now left.
Defined.

End AllowList.

(** ** The backoff and the calls of a run *)

Section Backoff.

Import Gemini.

Variables (srv : service) (url : string) (b : request_body) (model : string).

Lemma delays_one_attempt (attempt : Z) :
  delays (delay_before attempt ++ [Post url b]) = delays (delay_before attempt).
Proof. rewrite delays_app. simpl. apply app_nil_r. Qed.

Lemma retry_loop_delays (remaining : nat) :
  forall attempt lastError,
    delays (snd (retry_loop srv url b model remaining attempt lastError))
    = backoff attempt
        (attempts_made (snd (retry_loop srv url b model remaining attempt lastError))).
Proof.
  induction remaining as [|k IH]; intros attempt lastError; [reflexivity|].
  rewrite retry_loop_step. cbv zeta.
  assert (Hone :
    delays (delay_before attempt ++ [Post url b])
    = backoff attempt (attempts_made (delay_before attempt ++ [Post url b]))).
  { rewrite one_call_per_attempt, delays_one_attempt. simpl.
    now rewrite app_nil_r. }
  assert (Hnext : forall e,
    let run := (let (r, tr) :=
        retry_loop srv url b model k (attempt + 1) (Some e) in
        (r, ((delay_before attempt ++ [Post url b]) ++ tr)%list)) in
    delays (snd run) = backoff attempt (attempts_made (snd run))).
  { intros e. cbv zeta. specialize (IH (attempt + 1) (Some e)).
    destruct (retry_loop srv url b model k (attempt + 1) (Some e)) as [r tr].
    cbn [snd] in *.
    rewrite delays_app, attempts_made_app, one_call_per_attempt,
      delays_one_attempt, IH.
    reflexivity. }
  destruct (try_block model (prompt b) attempt (srv attempt)) as [g|e|e].
  - exact Hone.
  - apply Hnext.
  - destruct (attempt =? maxRetries); [exact Hone | apply Hnext].
Qed.

Lemma retry_loop_same_request (remaining : nat) :
  forall attempt lastError ev,
    In ev (snd (retry_loop srv url b model remaining attempt lastError)) ->
    is_post ev = true -> ev = Post url b.
Proof.
  induction remaining as [|k IH]; intros attempt lastError ev; [intros []|].
  rewrite retry_loop_step. cbv zeta.
  assert (Hone : In ev (delay_before attempt ++ [Post url b]) ->
                 is_post ev = true -> ev = Post url b).
  { intros Hin Hp. apply in_app_or in Hin as [Hin|[<-|[]]]; [|reflexivity].
    unfold delay_before in Hin.
    destruct (attempt >? 1); [destruct Hin as [<-|[]]; discriminate | destruct Hin]. }
  assert (Hnext : forall e,
    In ev (snd (let (r, tr) :=
        retry_loop srv url b model k (attempt + 1) (Some e) in
        (r, ((delay_before attempt ++ [Post url b]) ++ tr)%list))) ->
    is_post ev = true -> ev = Post url b).
  { intros e. specialize (IH (attempt + 1) (Some e) ev).
    destruct (retry_loop srv url b model k (attempt + 1) (Some e)) as [r tr].
    cbn [snd] in *. intros Hin Hp.
    apply in_app_or in Hin as [Hin|Hin]; [now apply Hone | now apply IH]. }
  destruct (try_block model (prompt b) attempt (srv attempt)) as [g|e|e].
  - exact Hone.
  - apply Hnext.
  - destruct (attempt =? maxRetries); [exact Hone | apply Hnext].
Qed.

Lemma try_block_Continues (prompt : string) (attempt : Z)
    (o : fetch_outcome) (e : error) :
  try_block model prompt attempt o = Continues e -> attempt < maxRetries.
Proof.
  unfold try_block. destruct o as [m|m|r]; try discriminate.
  destruct (ok r); cbn [negb].
  - destruct (extract_image (body r)); discriminate.
  - destruct (isRetryableError (status r)); cbn [andb]; [|discriminate].
    destruct (Z.ltb_spec attempt maxRetries); [auto | discriminate].
Qed.

(** A loop that gives up has run to the last attempt and throws what that
    attempt threw. *)
Lemma retry_loop_Throw (remaining : nat) :
  forall attempt lastError err tr,
    (1 <= remaining)%nat ->
    attempt + Z.of_nat remaining = maxRetries + 1 ->
    retry_loop srv url b model remaining attempt lastError = (Throw err, tr) ->
    attempts_made tr = remaining /\
    try_block model (prompt b) maxRetries (srv maxRetries) = Throws err.
Proof.
  induction remaining as [|k IH]; intros attempt lastError err tr Hpos Hsum H;
    [lia|].
  rewrite retry_loop_step in H. cbv zeta in H.
  assert (Hnext : forall e, attempt < maxRetries ->
    (let (r, tr') := retry_loop srv url b model k (attempt + 1) (Some e) in
     (r, ((delay_before attempt ++ [Post url b]) ++ tr')%list)) = (Throw err, tr) ->
    attempts_made tr = S k /\
    try_block model (prompt b) maxRetries (srv maxRetries) = Throws err).
  { intros e Hlt He.
    destruct (retry_loop srv url b model k (attempt + 1) (Some e))
      as [r tr'] eqn:E.
    injection He as -> <-.
    destruct (IH (attempt + 1) (Some e) err tr') as [Hn Ht]; [lia | lia | exact E |].
    split; [|exact Ht].
    now rewrite attempts_made_app, one_call_per_attempt, Hn. }
  destruct (try_block model (prompt b) attempt (srv attempt)) as [g|e|e] eqn:T.
  - discriminate.
  - apply (Hnext e); [now apply try_block_Continues in T | exact H].
  - destruct (Z.eqb_spec attempt maxRetries) as [Heq|Hneq].
    + injection H as <- <-. rewrite one_call_per_attempt.
      split; [lia|]. now rewrite <- Heq.
    + apply (Hnext e); [lia | exact H].
Qed.

End Backoff.

(** ** Reversal and trimming *)

Section Trimming.

Lemma str_app_assoc (a b c : string) : (a ++ b) ++ c = a ++ (b ++ c).
Proof. induction a as [|x a IH]; simpl; now rewrite ?IH. Qed.

Lemma rev_onto_app (s acc : string) : Js.rev_onto s acc = Js.rev s ++ acc.
Proof.
  unfold Js.rev. revert acc. induction s as [|c t IH]; intros acc; simpl.
  - reflexivity.
  - rewrite (IH (String c acc)), (IH (String c EmptyString)).
    now rewrite str_app_assoc.
Qed.

Lemma rev_cons (c : ascii) (t : string) :
  Js.rev (String c t) = Js.rev t ++ String c EmptyString.
Proof. unfold Js.rev at 1. simpl. apply rev_onto_app. Qed.

Lemma rev_app (a b : string) : Js.rev (a ++ b) = Js.rev b ++ Js.rev a.
Proof.
  induction a as [|c a IH]; simpl.
  - now rewrite append_empty_r.
  - now rewrite !rev_cons, IH, str_app_assoc.
Qed.

Lemma rev_involutive (s : string) : Js.rev (Js.rev s) = s.
Proof.
  induction s as [|c t IH]; [reflexivity|].
  now rewrite rev_cons, rev_app, IH.
Qed.

Lemma dropWhile_idempotent (f : ascii -> bool) (s : string) :
  Js.dropWhile f (Js.dropWhile f s) = Js.dropWhile f s.
Proof.
  induction s as [|c t IH]; simpl; [reflexivity|].
  destruct (f c) eqn:E; [exact IH | simpl; now rewrite E].
Qed.

Lemma dropWhileEnd_idempotent (f : ascii -> bool) (s : string) :
  Js.dropWhileEnd f (Js.dropWhileEnd f s) = Js.dropWhileEnd f s.
Proof.
  unfold Js.dropWhileEnd. now rewrite rev_involutive, dropWhile_idempotent.
Qed.

Lemma dropWhile_stops (f : ascii -> bool) (a b : string) (x : ascii) :
  f x = false ->
  exists r, Js.dropWhile f (a ++ String x b) = r ++ String x b.
Proof.
  intros Hx. induction a as [|c a IH]; simpl.
  - rewrite Hx. now exists EmptyString.
  - destruct (f c); [exact IH | now exists (String c a)].
Qed.

(** Trimming at the end never eats into a prefix whose last unit is kept. *)
Lemma dropWhileEnd_keeps (f : ascii -> bool) (q rest : string) (x : ascii) :
  f x = false ->
  exists r,
    Js.dropWhileEnd f ((q ++ String x EmptyString) ++ rest)
    = (q ++ String x EmptyString) ++ r.
Proof.
  intros Hx. unfold Js.dropWhileEnd.
  rewrite rev_app, rev_app. simpl (Js.rev (String x EmptyString)).
  change (Js.rev (String x EmptyString)) with (String x EmptyString).
  change (String x EmptyString ++ Js.rev q) with (String x (Js.rev q)).
  destruct (dropWhile_stops f (Js.rev rest) (Js.rev q) x Hx) as [r ->].
  exists (Js.rev r).
  now rewrite rev_app, rev_cons, rev_involutive.
Qed.

Lemma startsWith_inv (s p : string) :
  Js.startsWith s p = true -> exists r, s = p ++ r.
Proof.
  revert s. induction p as [|a p IH]; intros s H.
  - now exists s.
  - destruct s as [|c s]; [discriminate|]. simpl in H.
    apply andb_true_iff in H as [Hc Hs].
    apply Ascii.eqb_eq in Hc. subst.
    destruct (IH s Hs) as [r ->]. now exists r.
Qed.

Lemma sliceFrom_starts (p s c : string) :
  Js.sliceFrom p s = Some c -> Js.startsWith c p = true.
Proof.
  induction s as [|x s IH]; simpl.
  - destruct (Js.startsWith EmptyString p) eqn:E; [|discriminate].
    intros H. now injection H as <-.
  - destruct (Js.startsWith (String x s) p) eqn:E; [|exact IH].
    intros H. now injection H as <-.
Qed.

End Trimming.

(** ** What the client returns *)

Section ClientResults.

Import Gemini.

Lemma text_image_clean (p : part) (u : string) :
  text_image p = Some u ->
  Js.startsWith u png_prefix = true /\
  Js.dropWhileEnd trailing_artifact u = u.
Proof.
  unfold text_image. destruct (text p) as [t|]; [|discriminate].
  destruct (String.eqb t EmptyString); [discriminate|].
  destruct (Js.sliceFrom png_prefix t) as [c|] eqn:S; [|discriminate].
  intros H. injection H as <-. split; [|apply dropWhileEnd_idempotent].
  apply sliceFrom_starts, startsWith_inv in S as [r ->].
  assert (Htrim : exists r', Js.trim (png_prefix ++ r) = png_prefix ++ r').
  { unfold Js.trim.
    change (Js.dropWhile Js.white_space (png_prefix ++ r)) with (png_prefix ++ r).
    change png_prefix
      with ("data:image/png;base64" ++ String ","%char EmptyString).
    now apply dropWhileEnd_keeps. }
  destruct Htrim as [r' ->].
  assert (Hart : exists r'',
    Js.dropWhileEnd trailing_artifact (png_prefix ++ r') = png_prefix ++ r'').
  { change png_prefix
      with ("data:image/png;base64" ++ String ","%char EmptyString).
    now apply dropWhileEnd_keeps. }
  destruct Hart as [r'' ->]. apply startsWith_app.
Qed.

Lemma first_text_image_prefix (ps : list part) (u : string) :
  first_text_image ps = Some u -> Js.startsWith u png_prefix = true.
Proof.
  induction ps as [|p ps IH]; simpl; [discriminate|].
  destruct (text_image p) as [c|] eqn:T; [|exact IH].
  intros H. injection H as <-. now apply text_image_clean in T.
Qed.

Lemma extract_image_prefix (j : json) (u : string) :
  extract_image j = Some u -> Js.startsWith u png_prefix = true.
Proof.
  unfold extract_image.
  destruct (first_inline_image (partsResp j)) as [d|].
  - intros H. injection H as <-. exact (startsWith_app png_prefix d).
  - apply first_text_image_prefix.
Qed.

Lemma generate_Ok_response (e : env) (srv : service) (o : options)
    (g : generated) (tr : list event) :
  generateOverlayedImage e srv o = (Ok g, tr) ->
  exists r,
    srv (Z.of_nat (attempts_made tr)) = Responded r /\
    ok r = true /\ extract_image (body r) = Some (dataUrl g).
Proof.
  intros H. destruct (generate_Ok _ _ _ _ _ H) as [model [prompt [_ Hret]]].
  destruct (srv (Z.of_nat (attempts_made tr))) as [m|m|r]; try discriminate.
  exists r. split; [reflexivity|]. now apply try_block_Returns in Hret.
Qed.

(** X9: every result the client returns is an image found in the response of
    the last call made, a response with a success status, and its [dataUrl]
    starts with ['data:image/png;base64,'], whether it was taken from an
    inline part or cut out of a text part. *)
Theorem every_result_is_a_png_data_url (e : env) (srv : service)
    (o : options) (g : generated) (tr : list event) :
  generateOverlayedImage e srv o = (Ok g, tr) ->
  Js.startsWith (dataUrl g) "data:image/png;base64," = true /\
  exists r,
    srv (Z.of_nat (attempts_made tr)) = Responded r /\
    ok r = true /\ extract_image (body r) = Some (dataUrl g).
Proof.
  intros H. destruct (generate_Ok_response _ _ _ _ _ H) as [r [Hs [Hok Hx]]].
  split; [exact (extract_image_prefix _ _ Hx)|].
  now exists r.
Qed.

Lemma every_result_witness :
  Js.startsWith "data:image/png;base64,QUJD" "data:image/png;base64," = true /\
  exists r,
    Sample.script Sample.picture Sample.picture Sample.picture 1 = Responded r /\
    ok r = true /\ extract_image (body r) = Some "data:image/png;base64,QUJD".
Proof.
  apply (every_result_is_a_png_data_url Sample.e
           (Sample.script Sample.picture Sample.picture Sample.picture) Sample.o
           (mkGenerated "data:image/png;base64,QUJD"
              (mkUsage "gemini-2.5-flash-image-preview" 312 312))
           [Post (url_of Sample.e "k3y") (body_of Sample.o)]).
  vm_compute. reflexivity.
Defined.

(** X10: the literal cut out of a text part starts with
    ['data:image/png;base64,'] and ends with none of the five trailing
    artifacts (backquote, quote, double quote, closing parenthesis, closing
    bracket): cleaning it once more changes nothing. *)
Theorem text_literal_is_clean (p : part) (u : string) :
  text_image p = Some u ->
  Js.startsWith u "data:image/png;base64," = true /\
  Js.dropWhileEnd trailing_artifact u = u.
Proof. exact (text_image_clean p u). Qed.

Lemma text_literal_witness :
  Js.startsWith "data:image/png;base64,QUJD" "data:image/png;base64," = true /\
  Js.dropWhileEnd trailing_artifact "data:image/png;base64,QUJD"
  = "data:image/png;base64,QUJD".
Proof.
  apply (text_literal_is_clean
           (mkPart None None (Some "See (data:image/png;base64,QUJD)]' "))).
  reflexivity.
Defined.

End ClientResults.

(** ** The course of a run *)

Section Runs.

Import Gemini.

(** X11: the delays of a run follow one schedule: none before the first
    call, 2000 ms before the second, 4000 ms before the third, whatever the
    service answers; a run of [n] calls has slept the first [n - 1] of
    them, 6000 ms at most. *)
Theorem backoff_schedule (e : env) (srv : service) (o : options) :
  delays (snd (generateOverlayedImage e srv o))
  = firstn (attempts_made (snd (generateOverlayedImage e srv o)) - 1)
           [2000; 4000].
Proof.
  destruct (GEMINI_API_KEY e) as [key|] eqn:Hkey.
  - destruct (String.eqb_spec key EmptyString) as [->|Hne].
    + rewrite generate_without_key; [reflexivity | now rewrite Hkey].
    + rewrite (generate_with_key _ _ _ _ Hkey Hne), retry_loop_delays.
      pose proof (retry_loop_bounded srv (url_of e key) (body_of o)
                    (model_of e) 3 1 None) as Hb.
      destruct (attempts_made _) as [|[|[|[|n]]]]; try reflexivity. lia.
  - rewrite generate_without_key; [reflexivity | now rewrite Hkey].
Qed.

(** X12: every call of a run posts the same request to the same URL: the
    model and the key in the URL, the prompt, then the user image, then the
    overlay images in their order.  Nothing changes between attempts. *)
Theorem same_request_on_every_attempt (e : env) (srv : service)
    (o : options) (key : string) (ev : event) :
  GEMINI_API_KEY e = Some key ->
  In ev (snd (generateOverlayedImage e srv o)) ->
  is_post ev = true ->
  ev = Post (url_of e key)
            (mkBody (sysPrompt (productTitle o))
                    (userInlinePart o :: overlayInlineParts o)).
Proof.
  intros Hkey Hin Hp.
  destruct (String.eqb_spec key EmptyString) as [->|Hne].
  - rewrite generate_without_key in Hin; [destruct Hin | now rewrite Hkey].
  - rewrite (generate_with_key _ _ _ _ Hkey Hne) in Hin.
    exact (retry_loop_same_request _ _ _ _ _ _ _ _ Hin Hp).
Qed.

Lemma same_request_witness :
  Post (url_of Sample.e "k3y") (body_of Sample.o)
  = Post (url_of Sample.e "k3y")
         (mkBody (sysPrompt None) [Sample.user; Sample.shirt]).
Proof.
  apply (same_request_on_every_attempt Sample.e
           (Sample.script (Sample.answer 503 []) Sample.picture Sample.picture)
           Sample.o "k3y").
  - reflexivity.
  - vm_compute. right. right. left. reflexivity.
  - reflexivity.
Defined.

(** X13: when a call with a credential fails, the error it throws is the
    one thrown by the last attempt made, not one of an earlier attempt. *)
Theorem failure_reports_the_last_attempt (e : env) (srv : service)
    (o : options) (key : string) (err : error) (tr : list event) :
  GEMINI_API_KEY e = Some key ->
  key <> EmptyString ->
  generateOverlayedImage e srv o = (Throw err, tr) ->
  try_block (model_of e) (sysPrompt (productTitle o))
            (Z.of_nat (attempts_made tr))
            (srv (Z.of_nat (attempts_made tr)))
  = Throws err.
Proof.
  intros Hkey Hne H.
  rewrite (generate_with_key _ _ _ _ Hkey Hne) in H.
  apply retry_loop_Throw in H as [Hn Ht]; [| lia | reflexivity].
  rewrite Hn. exact Ht.
Qed.

Lemma failure_reports_witness :
  try_block (model_of Sample.e) (sysPrompt None) 3
            (Sample.script (Sample.answer 503 []) (Sample.answer 503 [])
                           (Sample.answer 429 []) 3)
  = Throws (GeminiApiError 429 "{}").
Proof.
  apply (failure_reports_the_last_attempt Sample.e
           (Sample.script (Sample.answer 503 []) (Sample.answer 503 [])
                          (Sample.answer 429 []))
           Sample.o "k3y" (GeminiApiError 429 "{}")
           [Post (url_of Sample.e "k3y") (body_of Sample.o); Sleep 2000;
            Post (url_of Sample.e "k3y") (body_of Sample.o); Sleep 4000;
            Post (url_of Sample.e "k3y") (body_of Sample.o)]).
  - reflexivity.
  - discriminate.
  - vm_compute. reflexivity.
Defined.

Lemma transient_does_not_return (model prompt : string) (attempt : Z)
    (o : fetch_outcome) (g : generated) :
  transient o = true -> try_block model prompt attempt o <> Returns g.
Proof.
  destruct o as [m|m|r]; cbn [transient]; intros H;
    [unfold try_block; discriminate | unfold try_block; discriminate |].
  apply andb_true_iff in H as [Hok _].
  apply negb_true_iff in Hok. rewrite (try_block_failure _ _ _ _ Hok).
  destruct (isRetryableError (status r) && (attempt <? maxRetries)); discriminate.
Qed.

(** Two attempts without a result are followed by the third. *)
Lemma two_failures_three_attempts (e : env) (srv : service) (o : options)
    (key : string) :
  GEMINI_API_KEY e = Some key ->
  key <> EmptyString ->
  (forall g, try_block (model_of e) (prompt (body_of o)) 1 (srv 1) <> Returns g) ->
  (forall g, try_block (model_of e) (prompt (body_of o)) 2 (srv 2) <> Returns g) ->
  attempts_made (snd (generateOverlayedImage e srv o)) = 3%nat.
Proof.
  intros Hkey Hne F1 F2.
  rewrite (generate_with_key _ _ _ _ Hkey Hne).
  pose proof (retry_loop_bounded srv (url_of e key) (body_of o) (model_of e) 3 1 None) as Hle.
  assert (Hge : (3 <= attempts_made
    (snd (retry_loop srv (url_of e key) (body_of o) (model_of e) 3 1 None)))%nat);
    [|lia].
  clear Hle. rewrite retry_loop_step. cbv zeta.
  change (1 =? maxRetries) with false. change (1 + 1) with 2.
  assert (H2 : forall le,
    (2 <= attempts_made (snd
       (retry_loop srv (url_of e key) (body_of o) (model_of e) 2 2 le)))%nat).
  { intros le. rewrite retry_loop_step. cbv zeta.
    change (2 =? maxRetries) with false. change (2 + 1) with 3.
    assert (H3 : forall le',
      (1 <= attempts_made (snd
         (retry_loop srv (url_of e key) (body_of o) (model_of e) 1 3 le')))%nat).
    { intros le'. rewrite retry_loop_step. cbv zeta.
      destruct (try_block (model_of e) (prompt (body_of o)) 3 (srv 3)) as [g|x|x].
      - cbn [snd]. rewrite one_call_per_attempt. lia.
      - simpl retry_loop. cbn [snd].
        rewrite attempts_made_app, one_call_per_attempt. lia.
      - change (3 =? maxRetries) with true. cbn [snd].
        rewrite one_call_per_attempt. lia. }
    destruct (try_block (model_of e) (prompt (body_of o)) 2 (srv 2)) as [g|x|x] eqn:T.
    - exfalso. exact (F2 g eq_refl).
    - specialize (H3 (Some x)).
      destruct (retry_loop srv (url_of e key) (body_of o) (model_of e) 1 3 (Some x))
        as [r tr]. cbn [snd] in *.
      rewrite attempts_made_app, one_call_per_attempt. lia.
    - specialize (H3 (Some x)).
      destruct (retry_loop srv (url_of e key) (body_of o) (model_of e) 1 3 (Some x))
        as [r tr]. cbn [snd] in *.
      rewrite attempts_made_app, one_call_per_attempt. lia. }
  destruct (try_block (model_of e) (prompt (body_of o)) 1 (srv 1)) as [g|x|x] eqn:T.
  - exfalso. exact (F1 g eq_refl).
  - specialize (H2 (Some x)).
    destruct (retry_loop srv (url_of e key) (body_of o) (model_of e) 2 2 (Some x))
      as [r tr]. cbn [snd] in *.
    rewrite attempts_made_app, one_call_per_attempt. lia.
  - specialize (H2 (Some x)).
    destruct (retry_loop srv (url_of e key) (body_of o) (model_of e) 2 2 (Some x))
      as [r tr]. cbn [snd] in *.
    rewrite attempts_made_app, one_call_per_attempt. lia.
Qed.

(** X14: a timeout, a network failure or a status 500, 502 or 503 on the
    first attempt is followed by a second attempt, and the same on the
    second attempt by a third. *)
Theorem transient_failures_are_retried (e : env) (srv : service)
    (o : options) (key : string) :
  GEMINI_API_KEY e = Some key ->
  key <> EmptyString ->
  transient (srv 1) = true ->
  (2 <= attempts_made (snd (generateOverlayedImage e srv o)))%nat /\
  (transient (srv 2) = true ->
   attempts_made (snd (generateOverlayedImage e srv o)) = 3%nat).
Proof.
  intros Hkey Hne T1. split.
  - apply (first_failure_is_retried e srv o key Hkey Hne).
    intros model prompt g. now apply transient_does_not_return.
  - intros T2. apply (two_failures_three_attempts e srv o key Hkey Hne);
      intros g; now apply transient_does_not_return.
Qed.

Lemma transient_failures_witness :
  (2 <= attempts_made (snd (generateOverlayedImage Sample.e
          (Sample.script (Gemini.TimedOut "This operation was aborted")
                         (Sample.answer 502 []) Sample.picture)
          Sample.o)))%nat /\
  (transient (Sample.answer 502 []) = true ->
   attempts_made (snd (generateOverlayedImage Sample.e
          (Sample.script (Gemini.TimedOut "This operation was aborted")
                         (Sample.answer 502 []) Sample.picture)
          Sample.o)) = 3%nat).
Proof.
  apply (transient_failures_are_retried Sample.e
           (Sample.script (Gemini.TimedOut "This operation was aborted")
                          (Sample.answer 502 []) Sample.picture)
           Sample.o "k3y").
  - reflexivity.
  - discriminate.
  - reflexivity.
Defined.

(** X15: [estimateTokens] is the length divided by four and rounded up:
    four times the estimate covers the text, with fewer than four units to
    spare; the empty text counts zero. *)
Theorem estimateTokens_is_a_ceiling (text : string) :
  4 * estimateTokens text - 4 < Js.length text <= 4 * estimateTokens text.
Proof.
  unfold estimateTokens.
  destruct (String.eqb_spec text EmptyString) as [->|_]; [simpl; lia|].
  pose proof (Z.div_mod (Js.length text) 4 ltac:(lia)) as Hdm.
  pose proof (Z.mod_pos_bound (Js.length text) 4 ltac:(lia)) as Hb.
  destruct (Z.eqb_spec (Js.length text mod 4) 0); lia.
Qed.

(** X16: when the first answer has a success status and holds an image, the
    run is one call and no delay, and the result is that image with the
    usage estimated from the prompt alone. *)
Theorem first_answer_with_image (e : env) (srv : service) (o : options)
    (key : string) (r : response) (u : string) :
  GEMINI_API_KEY e = Some key ->
  key <> EmptyString ->
  srv 1 = Responded r ->
  ok r = true ->
  extract_image (body r) = Some u ->
  generateOverlayedImage e srv o
  = (Ok (mkGenerated u
           (mkUsage (model_of e)
              (estimateTokens (sysPrompt (productTitle o)))
              (estimateTokens (sysPrompt (productTitle o))))),
     [Post (url_of e key) (body_of o)]).
Proof.
  intros Hkey Hne Hs Hok Hx.
  rewrite (generate_with_key _ _ _ _ Hkey Hne), retry_loop_step. cbv zeta.
  rewrite Hs, (try_block_image _ _ _ _ _ Hok Hx). reflexivity.
Qed.

Lemma first_answer_witness :
  generateOverlayedImage Sample.e (fun _ => Sample.picture) Sample.o
  = (Ok (mkGenerated "data:image/png;base64,QUJD"
           (mkUsage (model_of Sample.e)
              (estimateTokens (sysPrompt (productTitle Sample.o)))
              (estimateTokens (sysPrompt (productTitle Sample.o))))),
     [Post (url_of Sample.e "k3y") (body_of Sample.o)]).
Proof.
  apply (first_answer_with_image Sample.e (fun _ => Sample.picture) Sample.o
           "k3y"
           (mkResponse 200 "{}"
              (Sample.with_parts [Sample.image_part (Some "image/jpeg") "QUJD"])));
    try reflexivity.
  discriminate.
Defined.

End Runs.

(** ** The handler around the client *)

Section Handler.

Lemma no_synthesis_in_studio (w : world) (req : request) :
  filter is_synthesis (snd (Server.actualUserImage w req)) = [].
Proof.
  unfold Server.actualUserImage.
  now destruct (truthy (b_useStudioMode req) && truthy (b_studioId req)).
Qed.

Lemma no_synthesis_in_fetches (urls : list value) :
  filter is_synthesis (map FetchOverlay urls) = [].
Proof. induction urls as [|u urls IH]; [reflexivity | exact IH]. Qed.

Lemma no_synthesis_in_overlays (w : world) (req : request) :
  filter is_synthesis (snd (Server.resolve_overlays w req)) = [].
Proof.
  unfold Server.resolve_overlays.
  destruct (is_nonempty_array (b_overlayData req)); [reflexivity|].
  destruct (is_nonempty_array (b_overlayUrls req)); [|reflexivity].
  apply no_synthesis_in_fetches.
Qed.

(** The client reads its options through the request body only: the plan
    and the caller identity play no part. *)
Lemma generate_reads_the_body (e : env) (srv : Gemini.service)
    (o o' : Gemini.options) :
  Gemini.body_of o = Gemini.body_of o' ->
  Gemini.generateOverlayedImage e srv o = Gemini.generateOverlayedImage e srv o'.
Proof. intros H. unfold Gemini.generateOverlayedImage. now rewrite H. Qed.

(** The [try] block of a request that passes every check before the
    synthesis. *)
Lemma try_block_at_synthesis (e : env) (w : world) (req : request)
    (id : value) (s : string) (up : parsed) :
  requestSizeEstimate req <= MAX_REQUEST_SIZE ->
  fst (Server.actualUserImage w req) = VStr s ->
  Js.startsWith s "data:" = true ->
  parseDataUri (VStr s) = Ok up ->
  fst (Server.resolve_overlays w req) <> [] ->
  Server.try_block e w req id
  = let run := Gemini.generateOverlayedImage e (gemini w)
                 (Gemini.mkOptions (to_part up) (fst (Server.resolve_overlays w req))
                    (b_productTitle req) (aiMode_of (b_planType req))
                    (id_string id)) in
    (match fst run with
     | Ok g => Ok (mkHttp 200 (TryOnBody (Gemini.dataUrl g) (Gemini.g_usage g)))
     | Throw err => Throw err
     end,
     (snd (Server.actualUserImage w req) ++ snd (Server.resolve_overlays w req)
      ++ map Synthesis (snd run))%list).
Proof.
  intros Hsize Himg Hstart Hparse Hov. unfold Server.try_block.
  destruct (requestSizeEstimate req >? MAX_REQUEST_SIZE) eqn:E.
  { apply Z.gtb_lt in E. lia. }
  destruct (Server.actualUserImage w req) as [image ev1]. cbn [fst snd] in *.
  subst image. rewrite Hstart, Hparse. cbn [negb].
  destruct (Server.resolve_overlays w req) as [parts ev2]. cbn [fst snd] in *.
  destruct parts as [|p ps]; [congruence|].
  unfold lift.
  destruct (Gemini.generateOverlayedImage e (gemini w) _) as [r ev3].
  reflexivity.
Qed.

(** X17: a request that passes every check (caller, size, user image, at
    least one overlay) on a server without [GEMINI_API_KEY] is answered 500
    SERVICE_UNAVAILABLE, and no call to the generative API is made. *)
Theorem missing_key_is_service_unavailable (e : env) (w : world)
    (req : request) (id : value) (s : string) (up : parsed) :
  validateExtension e req = inr id ->
  requestSizeEstimate req <= MAX_REQUEST_SIZE ->
  fst (Server.actualUserImage w req) = VStr s ->
  Js.startsWith s "data:" = true ->
  parseDataUri (VStr s) = Ok up ->
  fst (Server.resolve_overlays w req) <> [] ->
  truthy_str (GEMINI_API_KEY e) = false ->
  fst (Server.tryon e w req)
  = mkHttp 500 (ErrorBody "AI service not configured. Please contact support."
                          "SERVICE_UNAVAILABLE" None) /\
  filter is_synthesis (snd (Server.tryon e w req)) = [].
Proof.
  intros Hid Hsize Himg Hstart Hparse Hov Hkey.
  unfold Server.tryon. rewrite Hid.
  rewrite (try_block_at_synthesis e w req id s up Hsize Himg Hstart Hparse Hov).
  cbv zeta. rewrite (generate_without_key _ _ _ Hkey). cbn [fst snd map].
  split; [reflexivity|].
  now rewrite !filter_app, no_synthesis_in_studio, no_synthesis_in_overlays.
Qed.

Lemma missing_key_witness :
  fst (Server.tryon (mkEnv None None (Some "gphnamdjcdhpmfeongphlidjlahkjafk") None)
         Sample.w Sample.req)
  = mkHttp 500 (ErrorBody "AI service not configured. Please contact support."
                          "SERVICE_UNAVAILABLE" None) /\
  filter is_synthesis
    (snd (Server.tryon (mkEnv None None (Some "gphnamdjcdhpmfeongphlidjlahkjafk") None)
            Sample.w Sample.req)) = [].
Proof.
  apply (missing_key_is_service_unavailable
           (mkEnv None None (Some "gphnamdjcdhpmfeongphlidjlahkjafk") None)
           Sample.w Sample.req (VStr "gphnamdjcdhpmfeongphlidjlahkjafk")
           "data:image/jpeg;base64,AAAA" (mkParsed "image/jpeg" "AAAA")).
  - reflexivity.
  - vm_compute. discriminate.
  - reflexivity.
  - reflexivity.
  - reflexivity.
  - discriminate.
  - reflexivity.
Defined.

(** X18: in studio mode, with a studio image that can be read, the
    [userImage] of the request is not looked at: replacing it by anything
    (the request staying within the size limit) changes neither the
    response nor the effects. *)
Theorem studio_image_replaces_userImage (e : env) (w : world)
    (req : request) (b64 : string) (image : value) (size : Z) :
  truthy (b_useStudioMode req) = true ->
  truthy (b_studioId req) = true ->
  studio_file w (b_studioId req) = Some b64 ->
  requestSizeEstimate req <= MAX_REQUEST_SIZE ->
  size <= MAX_REQUEST_SIZE ->
  Server.tryon e w (with_userImage req image size) = Server.tryon e w req.
Proof.
  intros Hmode Hid Hfile Hs1 Hs2.
  assert (Himg : Server.actualUserImage w (with_userImage req image size)
                 = Server.actualUserImage w req).
  { unfold Server.actualUserImage. cbn [with_userImage b_useStudioMode b_studioId].
    now rewrite Hmode, Hid, Hfile. }
  unfold Server.tryon.
  change (validateExtension e (with_userImage req image size))
    with (validateExtension e req).
  destruct (validateExtension e req) as [resp|id]; [reflexivity|].
  unfold Server.try_block. rewrite Himg.
  cbn [with_userImage requestSizeEstimate].
  destruct (Z.gtb_spec (requestSizeEstimate req) MAX_REQUEST_SIZE); [lia|].
  destruct (Z.gtb_spec size MAX_REQUEST_SIZE); [lia|].
  reflexivity.
Qed.

Lemma studio_image_witness :
  let w := mkWorld (fun _ => Some "U1RVRElP") (fun _ => OverlayThrows "none")
             (fun _ => Sample.picture) in
  let req := mkRequest None 100 (VStr "gphnamdjcdhpmfeongphlidjlahkjafk")
               (VStr "studio_1f0e") (VStr "data:image/jpeg;base64,AAAA")
               (VArr [VStr "data:image/png;base64,BBBB"]) VUndef None
               (VBool true) VUndef in
  Server.tryon Sample.e w (with_userImage req VNull 90) = Server.tryon Sample.e w req.
Proof.
  cbv zeta.
  apply (studio_image_replaces_userImage Sample.e _ _ "U1RVRElP" VNull 90).
  - reflexivity.
  - reflexivity.
  - reflexivity.
  - vm_compute. discriminate.
  - vm_compute. discriminate.
Defined.

End Handler.

(** ** The responses of the handlers *)

Section Responses.

Ltac break_match :=
  match goal with
  | H : context [match ?x with _ => _ end] |- _ => destruct x eqn:?
  | |- context [match ?x with _ => _ end] => destruct x eqn:?
  end.

Ltac shape := unfold well_formed, code_of, details_of; cbn;
  repeat split; intros; try discriminate; try congruence; auto 12.

Lemma on_error_well_formed (e : env) (err : error) :
  well_formed e [413; 422; 429; 500] (Server.on_error e err).
Proof.
  unfold Server.on_error.
  destruct (Js.includes (message err) "Image too large"); [shape|].
  destruct (Js.includes (message err) "Unsupported mime"
            || Js.includes (message err) "Invalid data URI"); [shape|].
  destruct (Js.includes (message err) "Missing GEMINI_API_KEY"); [shape|].
  destruct (Js.includes (message err) "quota"
            || Js.includes (message err) "rate limit"); [shape|].
  destruct (development e) eqn:D; shape.
Qed.

Lemma simple_on_error_well_formed (e : env) (err : error) :
  well_formed e [400; 413; 500] (ServerSimple.on_error e err).
Proof.
  unfold ServerSimple.on_error.
  destruct (Js.includes (message err) "Image too large"); [shape|].
  destruct (Js.includes (message err) "Unsupported mime"
            || Js.includes (message err) "Invalid data URI"); [shape|].
  destruct (development e) eqn:D; shape.
Qed.

Lemma well_formed_more (e : env) (l l' : list Z) (r : http_response) :
  incl l l' -> well_formed e l r -> well_formed e l' r.
Proof. intros Hi [H1 H2]. split; [now apply Hi | exact H2]. Qed.

Lemma try_block_well_formed (e : env) (w : world) (req : request)
    (id : value) (resp : http_response) (evs : list event) :
  Server.try_block e w req id = (Ok resp, evs) ->
  well_formed e [200; 400; 413; 422] resp.
Proof.
  unfold Server.try_block, lift. intros H.
  repeat break_match; try discriminate;
    injection H as <- <-; shape.
Qed.

Lemma simple_try_block_well_formed (e : env) (w : world) (req : request)
    (id : value) (resp : http_response) (evs : list event) :
  ServerSimple.try_block e w req id = (Ok resp, evs) ->
  well_formed e [200; 400; 422] resp.
Proof.
  unfold ServerSimple.try_block, lift. intros H.
  repeat break_match; try discriminate;
    injection H as <- <-; shape.
Qed.

(** X19: every response of the try-on handlers is well formed: its status is
    200, 400, 403, 413, 422, 429 or 500 (never 429 in the server without
    studio mode), it carries a machine code exactly when the status is not
    200, and the detail of an error is given in development mode only. *)
Theorem responses_are_well_formed (e : env) (w : world) (req : request) :
  well_formed e [200; 400; 403; 413; 422; 429; 500]
    (fst (Server.tryon e w req)) /\
  well_formed e [200; 400; 403; 413; 422; 500]
    (fst (ServerSimple.tryon e w req)).
Proof.
  split.
  - unfold Server.tryon.
    destruct (validateExtension e req) as [resp|id] eqn:V.
    + unfold validateExtension in V.
      destruct (negb _); [|discriminate]. injection V as <-. shape.
    + destruct (Server.try_block e w req id) as [[resp|err] evs] eqn:T; cbn [fst].
      * apply (well_formed_more e [200; 400; 413; 422]);
          [|exact (try_block_well_formed _ _ _ _ _ _ T)].
        intros x Hx. simpl in *. tauto.
      * apply (well_formed_more e [413; 422; 429; 500]);
          [|apply on_error_well_formed].
        intros x Hx. simpl in *. tauto.
  - unfold ServerSimple.tryon.
    destruct (validateExtension e req) as [resp|id] eqn:V.
    + unfold validateExtension in V.
      destruct (negb _); [|discriminate]. injection V as <-. shape.
    + destruct (ServerSimple.try_block e w req id) as [[resp|err] evs] eqn:T; cbn [fst].
      * apply (well_formed_more e [200; 400; 422]);
          [|exact (simple_try_block_well_formed _ _ _ _ _ _ T)].
        intros x Hx. simpl in *. tauto.
      * apply (well_formed_more e [400; 413; 500]);
          [|apply simple_on_error_well_formed].
        intros x Hx. simpl in *. tauto.
Qed.

End Responses.

(** ** When the generative API is called *)

Section Gatekeeping.

Ltac break_hyp H :=
  match type of H with
  | context [match ?x with _ => _ end] => destruct x eqn:?
  end.

Lemma no_synthesis_app (t1 t2 : list event) :
  filter is_synthesis t1 = [] -> filter is_synthesis t2 = [] ->
  filter is_synthesis (t1 ++ t2) = [].
Proof. intros H1 H2. now rewrite filter_app, H1, H2. Qed.

(** X20: the server with studio mode calls the generative API only for a
    request that passed every check: an authorised caller, a body within the
    size limit, a user image (the studio image in studio mode) that
    [parseDataUri] accepts, at least one overlay image resolved, and a
    credential configured. *)
Theorem synthesis_only_after_validation (e : env) (w : world) (req : request) :
  filter is_synthesis (snd (Server.tryon e w req)) <> [] ->
  exists id s up,
    validateExtension e req = inr id /\
    requestSizeEstimate req <= MAX_REQUEST_SIZE /\
    fst (Server.actualUserImage w req) = VStr s /\
    parseDataUri (VStr s) = Ok up /\
    fst (Server.resolve_overlays w req) <> [] /\
    truthy_str (GEMINI_API_KEY e) = true.
Proof.
  unfold Server.tryon.
  destruct (validateExtension e req) as [resp|id]; [intros H; now elim H|].
  destruct (Server.try_block e w req id) as [r evs] eqn:T. cbn [snd].
  intros Hsyn. unfold Server.try_block in T.
  destruct (Z.gtb_spec (requestSizeEstimate req) MAX_REQUEST_SIZE) as [Hbig|Hsize].
  { injection T as _ <-. now elim Hsyn. }
  pose proof (no_synthesis_in_studio w req) as N1.
  pose proof (no_synthesis_in_overlays w req) as N2.
  destruct (Server.actualUserImage w req) as [image ev1]. cbn [snd] in N1.
  destruct (Server.resolve_overlays w req) as [parts ev2] eqn:R. cbn [snd] in N2.
  destruct image as [| |bb|n|s|l|f];
    try (injection T as _ <-; now elim Hsyn).
  destruct (negb (Js.startsWith s "data:")); [injection T as _ <-; now elim Hsyn|].
  destruct (parseDataUri (VStr s)) as [up|err] eqn:P;
    [|injection T as _ <-; now elim Hsyn].
  destruct parts as [|p ps].
  { injection T as _ <-. elim Hsyn. now apply no_synthesis_app. }
  exists id, s, up. repeat split; try assumption; try discriminate.
  destruct (truthy_str (GEMINI_API_KEY e)) eqn:K; [reflexivity|].
  rewrite (generate_without_key _ _ _ K) in T. unfold lift in T. cbn in T.
  injection T as _ <-. elim Hsyn.
  rewrite app_nil_r. now apply no_synthesis_app.
Qed.

Lemma synthesis_only_witness :
  exists id s up,
    validateExtension Sample.e Sample.req = inr id /\
    requestSizeEstimate Sample.req <= MAX_REQUEST_SIZE /\
    fst (Server.actualUserImage Sample.w Sample.req) = VStr s /\
    parseDataUri (VStr s) = Ok up /\
    fst (Server.resolve_overlays Sample.w Sample.req) <> [] /\
    truthy_str (GEMINI_API_KEY Sample.e) = true.
Proof.
  apply (synthesis_only_after_validation Sample.e Sample.w Sample.req).
  vm_compute. discriminate.
Defined.

(** X21: the plan of the request changes nothing: [planType] only selects
    an [aiMode] that the client never reads, so the calls made, their
    content and the response are the same for every plan (the body staying
    within the size limit). *)
Theorem plan_type_changes_nothing (e : env) (w : world) (req : request)
    (planType : value) (size : Z) :
  requestSizeEstimate req <= MAX_REQUEST_SIZE ->
  size <= MAX_REQUEST_SIZE ->
  Server.tryon e w (with_planType req planType size) = Server.tryon e w req.
Proof.
  intros Hs1 Hs2. unfold Server.tryon.
  change (validateExtension e (with_planType req planType size))
    with (validateExtension e req).
  destruct (validateExtension e req) as [resp|id]; [reflexivity|].
  unfold Server.try_block.
  change (Server.actualUserImage w (with_planType req planType size))
    with (Server.actualUserImage w req).
  change (Server.resolve_overlays w (with_planType req planType size))
    with (Server.resolve_overlays w req).
  cbn [with_planType requestSizeEstimate b_productTitle b_planType].
  destruct (Z.gtb_spec (requestSizeEstimate req) MAX_REQUEST_SIZE); [lia|].
  destruct (Z.gtb_spec size MAX_REQUEST_SIZE); [lia|].
  destruct (Server.actualUserImage w req) as [image ev1].
  destruct image as [| |bb|n|s|l|f];
    [reflexivity | reflexivity | reflexivity | reflexivity | | reflexivity | reflexivity].
  destruct (negb (Js.startsWith s "data:")); [reflexivity|].
  destruct (parseDataUri (VStr s)) as [up|err]; [|reflexivity].
  destruct (Server.resolve_overlays w req) as [[|p ps] ev2]; [reflexivity|].
  rewrite (generate_reads_the_body e (gemini w)
             (Gemini.mkOptions (to_part up) (p :: ps) (b_productTitle req)
                (aiMode_of planType) (id_string id))
             (Gemini.mkOptions (to_part up) (p :: ps) (b_productTitle req)
                (aiMode_of (b_planType req)) (id_string id)) eq_refl).
  reflexivity.
Qed.

Lemma plan_type_witness :
  Server.tryon Sample.e Sample.w (with_planType Sample.req (VStr "unlimited") 121)
  = Server.tryon Sample.e Sample.w Sample.req.
Proof.
  apply (plan_type_changes_nothing Sample.e Sample.w Sample.req
           (VStr "unlimited") 121).
  - vm_compute. discriminate.
  - vm_compute. discriminate.
Defined.

Lemma on_error_is_an_error (e : env) (err : error) :
  code_of (Server.on_error e err) <> None.
Proof.
  destruct (on_error_well_formed e err) as [Hin [Hiff _]].
  intros Hc. apply Hiff in Hc. rewrite Hc in Hin. simpl in Hin.
  repeat (destruct Hin as [Hin|Hin]; [discriminate|]). exact Hin.
Qed.

Lemma simple_on_error_is_an_error (e : env) (err : error) :
  code_of (ServerSimple.on_error e err) <> None.
Proof.
  destruct (simple_on_error_well_formed e err) as [Hin [Hiff _]].
  intros Hc. apply Hiff in Hc. rewrite Hc in Hin. simpl in Hin.
  repeat (destruct Hin as [Hin|Hin]; [discriminate|]). exact Hin.
Qed.

Lemma lifted_result_prefix (e : env) (srv : Gemini.service)
    (o : Gemini.options) (g : Gemini.generated) (ev : list event) :
  lift (Gemini.generateOverlayedImage e srv o) = (Ok g, ev) ->
  Js.startsWith (Gemini.dataUrl g) "data:image/png;base64," = true.
Proof.
  unfold lift.
  destruct (Gemini.generateOverlayedImage e srv o) as [r tr] eqn:G.
  cbn [fst snd]. intros H. injection H as -> _.
  destruct (generate_Ok_response _ _ _ _ _ G) as [resp [_ [_ Hx]]].
  exact (extract_image_prefix _ _ Hx).
Qed.

(** X22: whenever a try-on handler answers with a result, the result is a
    data URL that starts with ['data:image/png;base64,']. *)
Theorem every_answer_is_a_png_data_url (e : env) (w : world) (req : request)
    (result : string) (u : Gemini.usage) :
  http_body_of (fst (Server.tryon e w req)) = TryOnBody result u \/
  http_body_of (fst (ServerSimple.tryon e w req)) = TryOnBody result u ->
  Js.startsWith result "data:image/png;base64," = true.
Proof.
  intros [H|H].
  - unfold Server.tryon in H.
    destruct (validateExtension e req) as [resp|id] eqn:V.
    { unfold validateExtension in V.
      destruct (negb _); [|discriminate]. injection V as <-. discriminate. }
    destruct (Server.try_block e w req id) as [[resp|err] evs] eqn:T; cbn [fst] in H.
    + unfold Server.try_block in T.
      repeat break_hyp T; try discriminate;
        try (injection T as <- _; discriminate).
      injection T as <- _. cbn in H. injection H as <- _.
      eapply lifted_result_prefix; eassumption.
    + pose proof (on_error_is_an_error e err) as Herr.
      unfold code_of in Herr. rewrite H in Herr. now elim Herr.
  - unfold ServerSimple.tryon in H.
    destruct (validateExtension e req) as [resp|id] eqn:V.
    { unfold validateExtension in V.
      destruct (negb _); [|discriminate]. injection V as <-. discriminate. }
    destruct (ServerSimple.try_block e w req id) as [[resp|err] evs] eqn:T;
      cbn [fst] in H.
    + unfold ServerSimple.try_block in T.
      repeat break_hyp T; try discriminate;
        try (injection T as <- _; discriminate).
      injection T as <- _. cbn in H. injection H as <- _.
      eapply lifted_result_prefix; eassumption.
    + pose proof (simple_on_error_is_an_error e err) as Herr.
      unfold code_of in Herr. rewrite H in Herr. now elim Herr.
Qed.

Lemma every_answer_witness :
  Js.startsWith "data:image/png;base64,QUJD" "data:image/png;base64," = true.
Proof.
  apply (every_answer_is_a_png_data_url Sample.e Sample.w Sample.req
           "data:image/png;base64,QUJD"
           (Gemini.mkUsage "gemini-2.5-flash-image-preview" 312 312)).
  left. vm_compute. reflexivity.
Defined.

End Gatekeeping.

(** ** Fetched overlays and origins *)

Section Edges.

(** X23: an overlay fetched with a success status is accepted under the
    bare mime type of its content type: parameters after a [;] are cut off,
    and a missing content type counts as [image/jpeg]. *)
Theorem fetched_content_type (st : Z) (m params b64 : string) :
  200 <= st <= 299 ->
  In m ALLOWED_MIME ->
  fetched_part (OverlayResponse st (Some (m ++ ";" ++ params)) b64)
  = Some (mkInlinePart m b64) /\
  fetched_part (OverlayResponse st (Some m) b64) = Some (mkInlinePart m b64) /\
  fetched_part (OverlayResponse st None b64)
  = Some (mkInlinePart "image/jpeg" b64).
Proof.
  intros Hst Hm. unfold fetched_part.
  assert (Hok : (200 <=? st) && (st <=? 299) = true).
  { apply andb_true_iff. split; apply Z.leb_le; lia. }
  rewrite Hok. cbn [negb]. simpl in Hm.
  repeat (destruct Hm as [<-|Hm]; [repeat split|]). contradiction.
Qed.

Lemma fetched_content_type_witness :
  fetched_part (OverlayResponse 200 (Some ("image/webp" ++ ";" ++ " q=0.8")) "UklGRg==")
  = Some (mkInlinePart "image/webp" "UklGRg==") /\
  fetched_part (OverlayResponse 200 (Some "image/webp") "UklGRg==")
  = Some (mkInlinePart "image/webp" "UklGRg==") /\
  fetched_part (OverlayResponse 200 None "UklGRg==")
  = Some (mkInlinePart "image/jpeg" "UklGRg==").
Proof.
  apply (fetched_content_type 200 "image/webp" " q=0.8" "UklGRg==").
  - lia.
  - simpl. tauto.
Defined.

(** Unlike the data-URI path, the fetch path does not fold the case. *)
Example fetched_upper_case_is_dropped :
  fetched_part (OverlayResponse 200 (Some "IMAGE/PNG") "BBBB") = None /\
  fetched_part (OverlayResponse 404 (Some "image/png") "BBBB") = None.
Proof. split; reflexivity. Qed.

Lemma includes_anywhere (pre p post : string) :
  Js.includes (pre ++ p ++ post) p = true.
Proof.
  induction pre as [|c pre IH].
  - simpl (EmptyString ++ _).
    destruct (p ++ post) eqn:E; simpl; rewrite <- E, startsWith_app; reflexivity.
  - simpl. rewrite IH. apply orb_true_r.
Qed.

(** X24: the CORS callback lets through a request without origin, every
    origin that starts with [chrome-extension://] or [moz-extension://],
    and every origin in which [localhost] occurs anywhere, host name or
    not. *)
Theorem cors_lets_through (pre post : string) :
  cors_allows None = true /\
  cors_allows (Some ("chrome-extension://" ++ post)) = true /\
  cors_allows (Some ("moz-extension://" ++ post)) = true /\
  cors_allows (Some (pre ++ "localhost" ++ post)) = true.
Proof.
  split; [reflexivity|].
  split; [reflexivity|].
  split; [reflexivity|].
  unfold cors_allows. rewrite includes_anywhere. apply orb_true_r.
Qed.

Example cors_examples :
  cors_allows (Some "https://localhost.attacker.example") = true /\
  cors_allows (Some "https://shop.example") = false.
Proof. split; reflexivity. Qed.

End Edges.

(** ** The two servers side by side *)

Section TwoServers.





End TwoServers.
